(** * The message overlay manager of src/message/Message.tsx

    A shallow embedding of the module's state (the registry [MessageList],
    the counter [keyIndex], the wrapper elements of the page, the mounted
    React roots and the pending timers) and of its operations
    ([createContainer], [renderElement], the theme factories, [close],
    [closeAll], the duration effect of the [Message] component), followed by
    the properties of the specification.

    JavaScript numbers are modelled as [Z]: the development says nothing
    about fractions, NaN or the loss of precision past 2^53. A timer is
    due its delay after it is set and runs no earlier; the delay is the one
    [window.setTimeout] makes of its argument, a signed 32-bit integer. A
    factory renders its element once, so the effect of the component runs
    once, on mount, and its cleanup once, on unmount; both run within the
    call that mounts or unmounts the root. The callbacks of the user are
    recorded in a trace; what they do besides is the user's next action.
    What React and the engine decide outside the sources (whether an
    element renders, what number a string stands for) is a [Host]. *)

From stdpp Require Import gmap strings list fin_maps sorting pretty.
From Stdlib Require Import ZArith Lia.

Local Open Scope Z_scope.

(** ** JavaScript values *)

(** What a function value does with the [close] operation it is handed: an
    [onDurationEnd] handler may call it or leave it alone. *)
Inductive handler : Type := Quiet | UsesClose.

#[warnings="-register-all"]
Inductive value : Type :=
| VUndef
| VNull
| VBool (b : bool)
| VNum (z : Z)
| VStr (s : string)
| VFun (h : handler)
| VElement (e : nat)               (* a React element, React.createElement(...) *)
| VNode (n : nat)                  (* a DOM node of the page *)
| VArr (items : list value)
| VObj (o : gmap string value).    (* a plain object: own properties *)

(** [typeof v]. *)
Definition typeof (v : value) : string :=
  match v with
  | VUndef => "undefined"
  | VBool _ => "boolean"
  | VNum _ => "number"
  | VStr _ => "string"
  | VFun _ => "function"
  | VNull | VElement _ | VNode _ | VArr _ | VObj _ => "object"
  end.

(** [Object.prototype.toString.call(v)]. A React element is a plain object
    with the fields [$$typeof], [type], [key], [ref] and [props]. The tag of
    a DOM node names its interface ([HTMLDivElement], ...): it is never
    [Object], which is all that the module asks of it. *)
Definition toStringTag (v : value) : string :=
  match v with
  | VUndef => "[object Undefined]"
  | VNull => "[object Null]"
  | VBool _ => "[object Boolean]"
  | VNum _ => "[object Number]"
  | VStr _ => "[object String]"
  | VFun _ => "[object Function]"
  | VElement _ => "[object Object]"
  | VNode _ => "[object HTMLElement]"
  | VArr _ => "[object Array]"
  | VObj _ => "[object Object]"
  end.

(** [!!v]: the falsy values are undefined, null, false, 0 and the empty
    string. *)
Definition truthy (v : value) : bool :=
  match v with
  | VUndef | VNull => false
  | VBool b => b
  | VNum z => negb (z =? 0)
  | VStr s => negb (String.eqb s "")
  | VFun _ | VElement _ | VNode _ | VArr _ | VObj _ => true
  end.

(** The own properties of a plain object; the module reads the fields of
    its configuration through them. *)
Definition fields (v : value) : gmap string value :=
  match v with
  | VObj o => o
  | _ => ∅
  end.

(** The properties that an object spread [{...v}] copies: the own
    properties of a plain object, the items of an array and the characters
    of a string under their indices. Numbers, booleans, null, undefined and
    functions have no own enumerable property. The own properties of a
    React element and the expandos of a DOM node are not part of a [value]:
    the spread of these two is not modelled, and no property below is
    about it. *)
Definition spread (v : value) : gmap string value :=
  match v with
  | VObj o => o
  | VArr items => list_to_map (imap (λ i x, (pretty i, x)) items)
  | VStr s =>
      list_to_map
        (imap (λ i c, (pretty i, VStr (String c EmptyString)))
           (String.list_ascii_of_string s))
  | VUndef | VNull | VBool _ | VNum _ | VFun _ | VElement _ | VNode _ => ∅
  end.

(** Property read [o.k] on an object given by its properties: a missing
    property reads as undefined. *)
Definition prop (o : gmap string value) (k : string) : value :=
  default VUndef (o !! k).

(** Property read [v.k] on a value that is not null or undefined. None of
    the names read by the module is a field of a React element, an array or
    a primitive. *)
Definition get (v : value) (k : string) : value := prop (fields v) k.

(** [React.isValidElement]: true of React elements only; a DOM node is not
    one. *)
Definition isValidElement (v : value) : bool :=
  match v with
  | VElement _ => true
  | _ => false
  end.

(** A value React accepts as a child: text, a number, an element, nothing
    (undefined, null, a boolean), or an array of such values. A function is
    ignored with a warning. Any other object, a plain object or a DOM node,
    makes the render raise ("Objects are not valid as a React child"). *)
Fixpoint validChild (v : value) : bool :=
  match v with
  | VArr items => forallb validChild items
  | VObj _ | VNode _ => false
  | VUndef | VNull | VBool _ | VNum _ | VStr _ | VFun _ | VElement _ => true
  end.

(** ** The host *)

(** What the module takes from React and from the JavaScript engine beyond
    what the development computes. [hostRenders props] tells whether
    [ReactDOM.render] of a [Message] element with these props returns, its
    children being valid: the icons of ../icon, [useConfig], [injectValue],
    React's checks of the remaining props and the elements the user passes
    in are not among the sources. [hostToInt32 v] is the 32-bit integer
    [setTimeout] makes of a delay [v] that is a string, a function or an
    object (ToNumber, then the conversion to a long). *)
Record Host : Type := {
  hostRenders : gmap string value → bool;
  hostToInt32 : value → Z
}.

(** ** Constants *)

Inductive Theme : Type := info | success | warning | error | question | loading.

(** The keys of [IconMap], in order; [ThemeList] of ./const lists the same
    tags. *)
Definition ThemeList : list Theme := [info; success; warning; error; question; loading].

Definition theme_name (t : Theme) : string :=
  match t with
  | info => "info"
  | success => "success"
  | warning => "warning"
  | error => "error"
  | question => "question"
  | loading => "loading"
  end.

(** ** The host of the examples *)

(** Children that hold no element of the user: text, numbers, nothing,
    and arrays of these. *)
Fixpoint plainChild (v : value) : bool :=
  match v with
  | VArr items => forallb plainChild items
  | VObj _ | VNode _ | VElement _ => false
  | VUndef | VNull | VBool _ | VNum _ | VStr _ | VFun _ => true
  end.

(** The props with which the sources decide that the element renders,
    the icons and [useConfig] taken to do so: the children hold no element
    of the user; the theme is a key of [IconMap] or undefined, which draws
    no icon; the style is an object; the close button is absent or the
    default icon of [closeBtn = true], so that [injectValue] is not asked;
    the duration is a number, a boolean or missing, so that the delay of
    [setTimeout] asks no conversion of a string or an object; the offset is
    no React element or DOM node, whose own properties the spread of a
    [value] does not know; no [ref] is set but undefined or null. *)
Definition plainProps (props : gmap string value) : bool :=
  plainChild (prop props "children")
  && match prop props "theme" with
     | VUndef => true
     | VStr s => bool_decide (s ∈ theme_name <$> ThemeList)
     | _ => false
     end
  && match prop props "style" with
     | VUndef | VNull | VObj _ => true
     | _ => false
     end
  && match prop props "closeBtn" with
     | VBool true => true
     | v => negb (truthy v)
     end
  && match prop props "duration" with
     | VUndef | VNull | VBool _ | VNum _ => true
     | _ => false
     end
  && match prop props "offset" with
     | VElement _ | VNode _ => false
     | _ => true
     end
  && match prop props "ref" with
     | VUndef | VNull => true
     | _ => false
     end.

(** The host of the examples. It renders the elements of [plainProps] and
    refuses the others, so that a run on it is a run on React; React
    renders more. No instance it renders asks for the delay of a string or
    an object. *)
Definition plainHost : Host :=
  {| hostRenders := plainProps; hostToInt32 := λ _, 0 |}.

Definition Top : string := "top".

Module globalConfig.

Definition zIndex : Z := 6000.
Definition duration : Z := 3000.
Definition top : Z := 32.

End globalConfig.

Inductive Placement : Type :=
| p_top | p_top_left | p_top_right | p_bottom | p_bottom_left | p_bottom_right.

(** Modelled from the spec: the table [PlacementOffset] of ./const is not
    among the sources. The specification gives its keys, the six placements;
    its entries (the edge offsets of each placement) stay symbolic: a
    wrapper records which placement's entries were copied into its style.
    [PlacementOffset v] is the entry under the own key [v] of the
    table, [None] when [v] is none of the six strings: there
    [Object.keys(PlacementOffset[v])] raises a TypeError, unless the lookup
    finds a member that the table inherits (for the name of a member of
    Object.prototype) or the key that an array stringifies to. These
    placements are outside the type of [placement] and are not told apart
    from the others here; the properties below are about the six placements
    and about calls that find a container. *)
Definition PlacementOffset (v : value) : option Placement :=
  match v with
  | VStr s =>
      if String.eqb s "top" then Some p_top
      else if String.eqb s "top-left" then Some p_top_left
      else if String.eqb s "top-right" then Some p_top_right
      else if String.eqb s "bottom" then Some p_bottom
      else if String.eqb s "bottom-left" then Some p_bottom_left
      else if String.eqb s "bottom-right" then Some p_bottom_right
      else None
  | _ => None
  end.

Definition placement_name (p : Placement) : string :=
  match p with
  | p_top => "top"
  | p_top_left => "top-left"
  | p_top_right => "top-right"
  | p_bottom => "bottom"
  | p_bottom_left => "bottom-left"
  | p_bottom_right => "bottom-right"
  end.

(** [s.includes(sub)]. *)
Fixpoint includes (s sub : string) : bool :=
  String.prefix sub s ||
  match s with
  | EmptyString => false
  | String _ s' => includes s' sub
  end.

(** ** The page *)

(** Where an element is attached. [createContainer] starts from
    [document.body] and may replace it by the value of [attach]. *)
Inductive domRef : Type :=
| DocumentBody
| AttachValue (v : value).

(** An element carrying the class [prefixWrapper]. [w_zIndex] is the value
    handed to [String()] for [style.zIndex], [w_offsets] the placement whose
    [PlacementOffset] entries were copied into the style, [w_top] the [top]
    offset in px when it was set, [w_kids] the message divs appended to it,
    each named by the key issued in the call that created it. *)
Record wrapper : Type := {
  w_id : nat;
  w_parent : domRef;
  w_zIndex : value;
  w_offsets : option Placement;
  w_top : option Z;
  w_kids : list Z
}.

(** ** Instances, timers and the state of the module *)

(** The handle [{ close, key }] built by [renderElement]; its [close] is
    the closure over the div of that call, [close] below. *)
Record MessageInstance : Type := { key : Z }.

#[global] Instance MessageInstance_eq_dec : EqDecision MessageInstance.
Proof. solve_decision. Defined.

(** A React root rendered in the div of key [k]: the props of the
    [Message] element and the component's [timerRef]. After
    [unmountComponentAtNode] the root is kept with [i_mounted = false]. *)
Record inst : Type := {
  i_props : gmap string value;
  i_timerRef : Z;
  i_mounted : bool
}.

(** A pending [setTimeout]: the closure of [startDuration] captures the
    [onDurationEnd] prop and the [close] of its instance. *)
Record timer : Type := {
  t_due : Z;
  t_owner : Z;
  t_onDurationEnd : value
}.

(** What the user's callbacks observe. [OnDurationEnd k c] is the call
    [onDurationEnd({ close })] of instance [k], where [close] closes the
    message [c]. *)
Inductive event : Type :=
| OnDurationEnd (k : Z) (close : MessageInstance)
| OnClosed (k : Z).

Record world : Type := {
  host : Host;
  MessageList : list MessageInstance;
  keyIndex : Z;
  page : list wrapper;         (* elements with class prefixWrapper, document order *)
  nextElem : nat;              (* identity of the next created element *)
  roots : gmap Z inst;
  timers : gmap Z timer;
  nextTimer : Z;
  now : Z;
  trace : list event
}.

(** Module load on host [h]: [MessageList = []], [keyIndex = 1], no timer
    set, a page without wrapper. *)
Definition boot (h : Host) : world :=
  {| host := h;
     MessageList := []; keyIndex := 1; page := []; nextElem := 0;
     roots := ∅; timers := ∅; nextTimer := 1; now := 0; trace := [] |}.

(** Module load on the host of the examples. *)
Definition initial : world := boot plainHost.

Definition set_MessageList (l : list MessageInstance) (s : world) : world :=
  {| host := host s; MessageList := l; keyIndex := keyIndex s; page := page s;
     nextElem := nextElem s; roots := roots s; timers := timers s;
     nextTimer := nextTimer s; now := now s; trace := trace s |}.

Definition set_keyIndex (k : Z) (s : world) : world :=
  {| host := host s; MessageList := MessageList s; keyIndex := k; page := page s;
     nextElem := nextElem s; roots := roots s; timers := timers s;
     nextTimer := nextTimer s; now := now s; trace := trace s |}.

Definition set_page (p : list wrapper) (s : world) : world :=
  {| host := host s; MessageList := MessageList s; keyIndex := keyIndex s; page := p;
     nextElem := nextElem s; roots := roots s; timers := timers s;
     nextTimer := nextTimer s; now := now s; trace := trace s |}.

Definition set_nextElem (n : nat) (s : world) : world :=
  {| host := host s; MessageList := MessageList s; keyIndex := keyIndex s; page := page s;
     nextElem := n; roots := roots s; timers := timers s;
     nextTimer := nextTimer s; now := now s; trace := trace s |}.

Definition set_roots (r : gmap Z inst) (s : world) : world :=
  {| host := host s; MessageList := MessageList s; keyIndex := keyIndex s; page := page s;
     nextElem := nextElem s; roots := r; timers := timers s;
     nextTimer := nextTimer s; now := now s; trace := trace s |}.

Definition set_timers (t : gmap Z timer) (s : world) : world :=
  {| host := host s; MessageList := MessageList s; keyIndex := keyIndex s; page := page s;
     nextElem := nextElem s; roots := roots s; timers := t;
     nextTimer := nextTimer s; now := now s; trace := trace s |}.

Definition set_nextTimer (n : Z) (s : world) : world :=
  {| host := host s; MessageList := MessageList s; keyIndex := keyIndex s; page := page s;
     nextElem := nextElem s; roots := roots s; timers := timers s;
     nextTimer := n; now := now s; trace := trace s |}.

Definition set_now (t : Z) (s : world) : world :=
  {| host := host s; MessageList := MessageList s; keyIndex := keyIndex s; page := page s;
     nextElem := nextElem s; roots := roots s; timers := timers s;
     nextTimer := nextTimer s; now := t; trace := trace s |}.

Definition log (e : event) (s : world) : world :=
  {| host := host s; MessageList := MessageList s; keyIndex := keyIndex s; page := page s;
     nextElem := nextElem s; roots := roots s; timers := timers s;
     nextTimer := nextTimer s; now := now s; trace := trace s ++ [e] |}.

(** ** Container resolution: [createContainer] *)

(** A destructuring default [x = d]: it applies to undefined only. *)
Definition defaulted (v d : value) : value :=
  match v with
  | VUndef => d
  | _ => v
  end.

(** [mountedDom.querySelectorAll('.' + prefixWrapper)]. On [document.body]
    it lists the wrappers of the page. The only values that replace
    [document.body] pass [React.isValidElement]; a React element has no
    method [querySelectorAll] and the call raises a TypeError ([None]). *)
Definition querySelectorAll (mountedDom : domRef) (s : world) : option (list wrapper) :=
  match mountedDom with
  | DocumentBody => Some (page s)
  | AttachValue _ => None
  end.

(** Lines 32-55. [None] is a TypeError. *)
Definition createContainer (config : gmap string value) (s : world)
  : option (wrapper * world) :=
  let attach := prop config "attach" in
  let zIndex := prop config "zIndex" in
  let placement := defaulted (prop config "placement") (VStr Top) in
  let mountedDom :=
    if isValidElement attach then AttachValue attach else DocumentBody in
  container ← querySelectorAll mountedDom s;
  if (length container <? 1)%nat then
    offsets ← PlacementOffset placement;
    let div :=
      {| w_id := nextElem s;
         w_parent := mountedDom;
         w_zIndex := zIndex;
         w_offsets := Some offsets;
         w_top := if includes (placement_name offsets) Top
                  then Some globalConfig.top else None;
         w_kids := [] |} in
    Some (div, set_page (page s ++ [div]) (set_nextElem (S (nextElem s)) s))
  else
    c ← container !! 0%nat;
    Some (c, s).

(** ** The [Message] component: duration effect and its cleanup *)

Definition noop : value := VFun Quiet.

(** [clearTimeout(id)]: an id that names no pending timer is ignored. *)
Definition clearTimeout (id : Z) (s : world) : world :=
  set_timers (delete id (timers s)) s.

(** The signed 32-bit integer with the residue of [z] modulo 2^32. *)
Definition ToInt32 (z : Z) : Z := (z + 2 ^ 31) `mod` 2 ^ 32 - 2 ^ 31.

(** The delay [window.setTimeout] uses for its second argument: the value
    goes through ToNumber and the conversion to a long, where NaN (as of
    undefined) gives 0, and a negative result counts as 0. *)
Definition timerDelay (h : Host) (v : value) : Z :=
  Z.max 0
    match v with
    | VNum z => ToInt32 z
    | VBool b => if b then 1 else 0
    | VUndef | VNull => 0
    | VStr _ | VFun _ | VElement _ | VNode _ | VArr _ | VObj _ => hostToInt32 h v
    end.

(** Lines 153-159, for the instance in the div of key [k]:
    [clearTimeout(timerRef.current)], then
    [timerRef.current = setTimeout(..., duration)]. *)
Definition startDuration (k : Z) (s : world) : world :=
  match roots s !! k with
  | Some i =>
      let s1 := clearTimeout (i_timerRef i) s in
      let id := nextTimer s1 in
      let t := {| t_due := now s1
                           + timerDelay (host s1) (prop (i_props i) "duration");
                  t_owner := k;
                  t_onDurationEnd :=
                    defaulted (prop (i_props i) "onDurationEnd") noop |} in
      set_roots
        (<[k := {| i_props := i_props i; i_timerRef := id;
                   i_mounted := i_mounted i |}]> (roots s1))
        (set_nextTimer (id + 1) (set_timers (<[id := t]> (timers s1)) s1))
  | None => s
  end.

(** Lines 165-168, the cleanup of the effect:
    [clearTimeout(timerRef.current)], then
    [typeof onClosed === 'function' && onClosed()], where [onClosed]
    defaults to [noop]. *)
Definition cleanup (k : Z) (i : inst) (s : world) : world :=
  let s1 := clearTimeout (i_timerRef i) s in
  let onClosed := defaulted (prop (i_props i) "onClosed") noop in
  if String.eqb (typeof onClosed) "function" then log (OnClosed k) s1 else s1.

(** [ReactDOM.unmountComponentAtNode(div)] for the div of key [k]: a
    mounted root is unmounted, which runs the cleanup of its effect; a div
    without mounted root is left alone. The cleanup runs within the call,
    as React 16 has it. (React 17 runs the cleanup of an unmounted effect
    in a later turn of the event loop: there the timer is cleared and
    [onClosed] called a moment after [close] has returned, and a timer that
    is due in between still runs. No property below is about the timers
    that are pending right after a close.) *)
Definition unmountComponentAtNode (k : Z) (s : world) : world :=
  match roots s !! k with
  | Some i =>
      if i_mounted i then
        set_roots
          (<[k := {| i_props := i_props i; i_timerRef := i_timerRef i;
                     i_mounted := false |}]> (roots s))
          (cleanup k i s)
      else s
  | None => s
  end.

Definition drop_kid (k : Z) (w : wrapper) : wrapper :=
  {| w_id := w_id w; w_parent := w_parent w; w_zIndex := w_zIndex w;
     w_offsets := w_offsets w; w_top := w_top w;
     w_kids := filter (λ j, j ≠ k) (w_kids w) |}.

Definition add_kid (k : Z) (w : wrapper) : wrapper :=
  {| w_id := w_id w; w_parent := w_parent w; w_zIndex := w_zIndex w;
     w_offsets := w_offsets w; w_top := w_top w;
     w_kids := w_kids w ++ [k] |}.

(** [div.remove()]: the div leaves its parent, if it has one. *)
Definition remove (k : Z) (s : world) : world :=
  set_page (drop_kid k <$> page s) s.

(** [container.appendChild(div)]. *)
Definition appendChild (container : wrapper) (k : Z) (s : world) : world :=
  set_page
    ((λ w, if Nat.eqb (w_id w) (w_id container) then add_kid k w else w)
       <$> page s) s.

(** Lines 65-68, the [close] of a handle:
    [ReactDOM.unmountComponentAtNode(div); div.remove()]. *)
Definition close (m : MessageInstance) (s : world) : world :=
  remove (key m) (unmountComponentAtNode (key m) s).

(** The callback handed to [setTimeout] on lines 155-158:
    [onDurationEnd({ close }); close()]. Calling a value that is not a
    function raises a TypeError, which ends the callback. A handler that
    uses the [close] it receives closes the message itself. *)
Definition timerCallback (t : timer) (s : world) : world :=
  let message := {| key := t_owner t |} in
  match t_onDurationEnd t with
  | VFun h =>
      let s1 := log (OnDurationEnd (t_owner t) message) s in
      let s2 := match h with
                | UsesClose => close message s1
                | Quiet => s1
                end in
      close message s2
  | _ => s
  end.

(** Whether [ReactDOM.render] of the [Message] element with these props
    returns: the children must be valid, and the host must render the
    rest. *)
Definition reactRenders (props : gmap string value) (s : world) : bool :=
  validChild (prop props "children") && hostRenders (host s) props.

(** [ReactDOM.render(<Message .../>, div)] for the div of key [k]. When
    React renders the element, the root is mounted and the effect of lines
    161-164 runs, [if (typeof duration === 'number') startDuration()].
    Otherwise the call raises ([None]): nothing is mounted and no effect
    runs. *)
Definition render (k : Z) (props : gmap string value) (s : world)
  : option world :=
  if reactRenders props s then
    let s1 :=
      set_roots
        (<[k := {| i_props := props; i_timerRef := 0; i_mounted := true |}]>
           (roots s)) s in
    Some (if String.eqb (typeof (prop props "duration")) "number"
          then startDuration k s1 else s1)
  else None.

(** ** Instance creation: [renderElement] and the theme factories *)

(** The props of the element of lines 83-94: [theme], [style], then the
    spread of [config], then the children [content]. The [close] prop is the
    closure over the handle, which the model names by the key. *)
Definition elementProps (theme : Theme) (config : gmap string value)
  : gmap string value :=
  let content := prop config "content" in
  let offset := prop config "offset" in
  let style :=
    if truthy offset
    then VObj (<["width" := VStr "auto"]>
                 (<["position" := VStr "absolute"]> (spread offset)))
    else VObj ∅ in
  <["children" := content]>
    (config ∪ <["theme" := VStr (theme_name theme)]> {["style" := style]}).

(** What the promise of [renderElement] comes to, and the state the call
    leaves. [Mounted resolves message s]: React rendered the element, the
    div is appended and the handle pushed; the promise resolves with
    [message] when [resolves] holds and stays pending otherwise.
    [Rejected s]: [ReactDOM.render] raised and the promise is rejected. *)
Inductive settled : Type :=
| Mounted (resolves : bool) (message : MessageInstance) (s : world)
| Rejected (s : world).

(** Lines 57-100. [None]: [createContainer] raises, before the promise is
    made. The executor of the promise runs at once. When
    [ReactDOM.render] returns, the div is appended and the handle is
    pushed; the promise is resolved by the ref callback of lines 87-89,
    which React calls when the element is mounted, unless the configuration
    has a [ref] of its own: the spread of line 91 puts that one in its
    place, and the promise stays pending. When [ReactDOM.render] raises,
    lines 97-98 are skipped and the promise is rejected, with the container
    resolved and the key taken. *)
Definition renderElement (theme : Theme) (config : gmap string value) (s : world)
  : option settled :=
  '(container, s) ← createContainer config s;
  let s := set_keyIndex (keyIndex s + 1) s in
  let message := {| key := keyIndex s |} in
  match render (key message) (elementProps theme config) s with
  | Some s =>
      let s := appendChild container (key message) s in
      let s := set_MessageList (MessageList s ++ [message]) s in
      Some (Mounted (bool_decide (config !! "ref" = None)) message s)
  | None => Some (Rejected s)
  end.

(** Lines 193-195. *)
Definition isConfig (content : value) : bool :=
  String.eqb (toStringTag content) "[object Object]"
  && truthy (get content "content").

(** Lines 199-214: the configuration a factory builds from its arguments;
    [duration] is [None] when the second argument is left out. *)
Definition factoryConfig (content : value) (duration : option Z)
  : gmap string value :=
  let duration := VNum (default globalConfig.duration duration) in
  let config :=
    if isConfig content
    then fields content ∪ {["duration" := duration]}
    else <["content" := content]> {["duration" := duration]} in
  <["zIndex" := if truthy (prop config "zIndex")
                then prop config "zIndex"
                else VNum globalConfig.zIndex]> config.

(** Lines 197-217, [Message[theme]]: the promise of [renderElement] on the
    configuration of the call. *)
Definition Message_call (theme : Theme) (content : value)
    (duration : option Z) (s : world) : option settled :=
  renderElement theme (factoryConfig content duration) s.

(** The handle of the instance that a factory call mounts, the value of
    its promise, with the state the call leaves; [None] when the call
    raises or its promise is rejected. *)
Definition Message_factory (theme : Theme) (content : value)
    (duration : option Z) (s : world) : option (MessageInstance * world) :=
  match Message_call theme content duration s with
  | Some (Mounted _ message s') => Some (message, s')
  | Some (Rejected _) | None => None
  end.

(** Lines 219-221, [Message.close]: once the promise of a factory call has
    resolved with its handle, that handle is closed. *)
Definition Message_close (instance : MessageInstance) (s : world) : world :=
  close instance s.

(** Lines 223-228, [Message.closeAll]: every handle of the module has a
    function [close]. *)
Definition Message_closeAll (s : world) : world :=
  set_MessageList [] (foldl (λ s message, close message s) s (MessageList s)).

(** ** The event loop *)

(** What can happen to the module: a factory call, a [close] on a handle,
    [closeAll], the pointer entering or leaving a mounted message, time
    passing, and a due timer running its callback. *)
Inductive action : Type :=
| Create (theme : Theme) (content : value) (duration : option Z)
| Close (m : MessageInstance)
| CloseAll
| MouseEnter (k : Z)
| MouseLeave (k : Z)
| Elapse (dt : Z)
| Fire (id : Z).

Definition mounted (k : Z) (s : world) : bool :=
  match roots s !! k with
  | Some i => i_mounted i
  | None => false
  end.

(** A timer runs no earlier than its due time. *)
Definition fire (id : Z) (s : world) : option world :=
  t ← timers s !! id;
  if t_due t <=? now s
  then Some (timerCallback t (set_timers (delete id (timers s)) s))
  else None.

(** Lines 179-184: [onMouseEnter] clears the timer, [onMouseLeave] calls
    [startDuration]. *)
Definition onMouseEnter (k : Z) (s : world) : world :=
  match roots s !! k with
  | Some i => clearTimeout (i_timerRef i) s
  | None => s
  end.

Definition onMouseLeave (k : Z) (s : world) : world := startDuration k s.

(** One step; [None] when the action cannot happen in [s]: a handle that
    was never issued, a pointer event on a message that is not on the page,
    time running backwards, a timer that is not due. A factory call is a
    step when it mounts its instance. The call that raises changes
    nothing; the call whose promise is rejected takes a key and may leave a
    new container ([renderElement] gives that state): [stepAll] below
    follows it too. *)
Definition step (s : world) (a : action) : option world :=
  match a with
  | Create theme content duration =>
      snd <$> Message_factory theme content duration s
  | Close m =>
      if bool_decide (is_Some (roots s !! key m)) then Some (close m s) else None
  | CloseAll => Some (Message_closeAll s)
  | MouseEnter k => if mounted k s then Some (onMouseEnter k s) else None
  | MouseLeave k => if mounted k s then Some (onMouseLeave k s) else None
  | Elapse dt => if 0 <=? dt then Some (set_now (now s + dt) s) else None
  | Fire id => fire id s
  end.

Fixpoint run (acts : list action) (s : world) : option world :=
  match acts with
  | [] => Some s
  | a :: acts => s' ← step s a; run acts s'
  end.

(** The states of the runs from module load, on any host. *)
Definition reachable (s : world) : Prop :=
  ∃ h acts, run acts (boot h) = Some s.

(** The state after a run from module load on the host of the examples;
    the initial state when the run cannot happen. *)
Definition after (acts : list action) : world := default initial (run acts initial).

(** The number of [onClosed] calls of instance [k] in a trace. *)
Definition isOnClosed (k : Z) (e : event) : bool :=
  match e with
  | OnClosed j => bool_decide (j = k)
  | OnDurationEnd _ _ => false
  end.

Definition closedCount (k : Z) (tr : list event) : nat :=
  length (filter (λ e, isOnClosed k e = true) tr).

(** ** Vocabulary of the properties *)

(** Whether the cleanup of an instance calls [onClosed]: the prop is a
    function, or left out. *)
Definition callsOnClosed (i : inst) : bool :=
  String.eqb (typeof (defaulted (prop (i_props i) "onClosed") noop)) "function".

(** A registry in creation order: the keys grow along the list. *)
Definition increasing (l : list MessageInstance) : Prop :=
  ∀ (a b : nat) (ma mb : MessageInstance),
    (a < b)%nat → l !! a = Some ma → l !! b = Some mb → key ma < key mb.

(** The invariant of the states reachable from module load. *)
Record Inv (s : world) : Prop := {
  inv_keyIndex : 1 ≤ keyIndex s;
  (* the keys issued so far are 2 .. keyIndex, each with its root *)
  inv_issued : ∀ k, is_Some (roots s !! k) ↔ 2 ≤ k ≤ keyIndex s;
  (* onClosed was called once for a closed instance, never for a live one *)
  inv_closed : ∀ k,
    closedCount k (trace s) =
    match roots s !! k with
    | Some i => if i_mounted i then 0%nat
                else if callsOnClosed i then 1%nat else 0%nat
    | None => 0%nat
    end;
  (* a live instance has its handle in the registry *)
  inv_registry : ∀ k, mounted k s = true → {| key := k |} ∈ MessageList s;
  (* the registry is in creation order *)
  inv_sorted : increasing (MessageList s);
  inv_bound : ∀ m, m ∈ MessageList s → 2 ≤ key m ≤ keyIndex s;
  (* a pending timer is the current timer of a live instance *)
  inv_timers : ∀ id t, timers s !! id = Some t →
    ∃ i, roots s !! t_owner t = Some i ∧ i_mounted i = true ∧ i_timerRef i = id;
  (* one wrapper at most *)
  inv_page : (length (page s) ≤ 1)%nat
}.

(** The state once the root of key [k] is rendered and its handle is in the
    registry, before the effect runs. *)
Definition mountAt (k : Z) (props : gmap string value) (s : world) : world :=
  set_MessageList (MessageList s ++ [{| key := k |}])
    (set_roots
       (<[k := {| i_props := props; i_timerRef := 0; i_mounted := true |}]>
          (roots s))
       (set_keyIndex k s)).

(** The loop of [closeAll] over the handles [l]. *)
Definition sweep (l : list MessageInstance) (s : world) : world :=
  foldl (λ s message, close message s) s l.

(** The [onClosed] calls of a sweep over [l], in the order of [l]: one for
    each handle whose instance is still mounted and has a callable
    [onClosed]. *)
Definition sweepEvents (s : world) (l : list MessageInstance) : list event :=
  l ≫= λ m,
    match roots s !! key m with
    | Some i => if i_mounted i && callsOnClosed i then [OnClosed (key m)] else []
    | None => []
    end.

(** The props of the root of key [k], if it was rendered. *)
Definition propsOf (k : Z) (s : world) : option (gmap string value) :=
  i_props <$> roots s !! k.

(** Whether an action is a factory call. *)
Definition isCreate (a : action) : bool :=
  match a with
  | Create _ _ _ => true
  | _ => false
  end.

(** The number of factory calls of a run. *)
Definition creates (acts : list action) : Z :=
  Z.of_nat (length (filter (λ a, isCreate a = true) acts)).

(** An action that closes instance [k]: its handle's [close], [closeAll],
    or its timer firing with a callable [onDurationEnd]. *)
Definition closes (s : world) (a : action) (k : Z) : Prop :=
  match a with
  | Close m => key m = k
  | CloseAll => True
  | Fire id =>
      ∃ t, timers s !! id = Some t ∧ t_owner t = k ∧
           typeof (t_onDurationEnd t) = "function"
  | Create _ _ _ | MouseEnter _ | MouseLeave _ | Elapse _ => False
  end.

(** The actions that end or re-time instance [k] from outside its timer:
    its handle's [close], [closeAll], and the pointer leaving it. *)
Definition disturbs (k : Z) (a : action) : bool :=
  match a with
  | Close m => bool_decide (key m = k)
  | CloseAll => true
  | MouseLeave j => bool_decide (j = k)
  | Create _ _ _ | MouseEnter _ | Elapse _ | Fire _ => false
  end.

(** A run that leaves instance [k] to its timer. *)
Definition calm (k : Z) (acts : list action) : Prop :=
  Forall (λ a, disturbs k a = false) acts.

(** Instance [k] is mounted and none of its timers is due before [T]. *)
Definition safeUntil (k T : Z) (s : world) : Prop :=
  mounted k s = true ∧
  ∀ id t, timers s !! id = Some t → t_owner t = k → T ≤ t_due t.

(** ** What the component draws from its props *)

(** Line 139: the theme the component works with, ['info'] when the prop
    is undefined; line 174 puts it in the class name. *)
Definition Message_theme (props : gmap string value) : value :=
  defaulted (prop props "theme") (VStr "info").

(** Lines 102-105 and 186: [MessageIcon] is handed the props as they
    are and looks their [theme] up in [IconMap], without the default of
    line 139. *)
Definition MessageIcon_theme (props : gmap string value) : value :=
  prop props "theme".

(** Lines 140 and 174-176: [closeBtn] defaults to [false], and
    [classNames] adds the class [is-closable] when it is truthy. *)
Definition isClosable (props : gmap string value) : bool :=
  truthy (defaulted (prop props "closeBtn") (VBool false)).

(** What [MessageClose] returns: nothing, a [CloseIcon] with a class, a
    span with a class, a click handler and children, or a clone of the
    element that [closeBtn] gave, with a class added. *)
Inductive closeNode : Type :=
| NoButton
| CloseIconNode (className : string)
| SpanNode (className : string) (onClick : value) (children : value)
| ClonedNode (button : value) (addedClass : string).

Section CloseButton.

(** [injectValue] of ../_util and the prefixes of ./const and [useConfig]
    are not among the sources: [injectValue closeBtn onClickCloseBtn] stands
    for the value of [injectValue(closeBtn)(onClickCloseBtn)]. *)
Variable injectValue : value → value → value.
Variables prefix classPrefix : string.

(** Lines 107-135. *)
Definition MessageClose (props : gmap string value) : closeNode :=
  let closeBtn := prop props "closeBtn" in
  let onClickCloseBtn := prop props "onClickCloseBtn" in
  if negb (truthy closeBtn) then NoButton
  else
    match closeBtn with
    | VBool true => CloseIconNode (prefix ++ "-close")
    | _ =>
        let button := injectValue closeBtn onClickCloseBtn in
        if String.eqb (typeof button) "string" || String.eqb (typeof button) "number"
        then SpanNode (classPrefix ++ "-message-close") onClickCloseBtn closeBtn
        else if isValidElement button
        then ClonedNode button (classPrefix ++ "-message-close")
        else CloseIconNode (classPrefix ++ "-message-close")
    end.

End CloseButton.

(** ** More vocabulary: isolation, timers, the page and the registry *)

(** What of a wrapper its creation fixes: everything but its children. *)
Definition wrapperAttrs (w : wrapper)
  : nat * domRef * value * option Placement * option Z :=
  (w_id w, w_parent w, w_zIndex w, w_offsets w, w_top w).

(** The message an action is about, if it is about one: the handle that is
    closed, the message the pointer enters or leaves, the owner of the
    timer that fires. *)
Definition target (s : world) (a : action) : option Z :=
  match a with
  | Close m => Some (key m)
  | MouseEnter k | MouseLeave k => Some k
  | Fire id => t_owner <$> timers s !! id
  | Create _ _ _ | CloseAll | Elapse _ => None
  end.

(** Timer ids are fresh: the pending ones and the ones the components
    remember were all handed out, and the timer a component remembers is
    its own. *)
Record InvT (s : world) : Prop := {
  t_next : 1 ≤ nextTimer s;
  t_ids : ∀ id t, timers s !! id = Some t → 1 ≤ id < nextTimer s;
  t_refs : ∀ k i, roots s !! k = Some i → 0 ≤ i_timerRef i < nextTimer s;
  t_own : ∀ k i t, roots s !! k = Some i →
    timers s !! i_timerRef i = Some t → t_owner t = k
}.

(** The children of a wrapper are the mounted messages, oldest first; a
    page without wrapper has seen no factory call. *)
Record InvK (s : world) : Prop := {
  k_empty : page s = [] → keyIndex s = 1;
  k_kids : ∀ w, w ∈ page s →
    (∀ k, k ∈ w_kids w ↔ mounted k s = true) ∧ StronglySorted Z.lt (w_kids w)
}.

(** The registry holds the handles of the last factory calls, with
    consecutive keys up to the counter. *)
Definition InvR (s : world) : Prop :=
  key <$> MessageList s =
  seqZ (keyIndex s + 1 - Z.of_nat (length (MessageList s)))
       (Z.of_nat (length (MessageList s))).

(** The size of the registry after a run that starts with [n] handles:
    a factory call adds one, [closeAll] empties it. *)
Definition registrySize (acts : list action) (n : nat) : nat :=
  foldl (λ n a, match a with
                | Create _ _ _ => S n
                | CloseAll => 0%nat
                | _ => n
                end) n acts.

(** The number of [onDurationEnd] calls of instance [k] in a trace. *)
Definition isOnDurationEnd (k : Z) (e : event) : bool :=
  match e with
  | OnDurationEnd j _ => bool_decide (j = k)
  | OnClosed _ => false
  end.

Definition durationEndCount (k : Z) (tr : list event) : nat :=
  length (filter (λ e, isOnDurationEnd k e = true) tr).

(** How many [onDurationEnd] calls an instance can have had: none while
    it is mounted or not created yet, one at most once it is closed. *)
Definition durationEndBound (k : Z) (s : world) : nat :=
  match roots s !! k with
  | Some i => if i_mounted i then 0%nat else 1%nat
  | None => 0%nat
  end.

Definition InvD (s : world) : Prop :=
  ∀ k, (durationEndCount k (trace s) ≤ durationEndBound k s)%nat.

(** ** Runs that keep the rejected calls *)

(** The state a factory call leaves, whatever its promise comes to;
    [None] when the call raises. *)
Definition Message_call_state (theme : Theme) (content : value)
    (duration : option Z) (s : world) : option world :=
  match Message_call theme content duration s with
  | Some (Mounted _ _ s') | Some (Rejected s') => Some s'
  | None => None
  end.

(** One step of a run in which a factory call is followed also when its
    promise is rejected. *)
Definition stepAll (s : world) (a : action) : option world :=
  match a with
  | Create theme content duration => Message_call_state theme content duration s
  | _ => step s a
  end.

Fixpoint runAll (acts : list action) (s : world) : option world :=
  match acts with
  | [] => Some s
  | a :: acts => s' ← stepAll s a; runAll acts s'
  end.

(** The state after such a run from module load on the host of the
    examples. *)
Definition afterAll (acts : list action) : world :=
  default initial (runAll acts initial).

(** What such runs keep of the keys: the roots and the handles of the
    registry carry keys that were issued, and the registry is in creation
    order. *)
Record InvKeys (s : world) : Prop := {
  ik_keyIndex : 1 ≤ keyIndex s;
  ik_roots : ∀ k, is_Some (roots s !! k) → 2 ≤ k ≤ keyIndex s;
  ik_sorted : increasing (MessageList s);
  ik_bound : ∀ m, m ∈ MessageList s → 2 ≤ key m ≤ keyIndex s
}.

(** * Lemmas on the operations *)

(** ** Basic facts about the operations *)

Lemma world_eq (s1 s2 : world) :
  host s1 = host s2 →
  MessageList s1 = MessageList s2 → keyIndex s1 = keyIndex s2 →
  page s1 = page s2 → nextElem s1 = nextElem s2 → roots s1 = roots s2 →
  timers s1 = timers s2 → nextTimer s1 = nextTimer s2 → now s1 = now s2 →
  trace s1 = trace s2 → s1 = s2.
Proof. destruct s1, s2; simpl; intros; congruence. Qed.

Lemma drop_kid_twice (k : Z) (w : wrapper) : drop_kid k (drop_kid k w) = drop_kid k w.
Proof.
  unfold drop_kid; simpl. f_equal.
  induction (w_kids w) as [|j l IH]; [done|].
  rewrite filter_cons. case_decide; [|done].
  rewrite filter_cons. case_decide; [|done]. by rewrite IH.
Qed.

Lemma remove_twice (k : Z) (s : world) : remove k (remove k s) = remove k s.
Proof.
  unfold remove, set_page; simpl. f_equal.
  rewrite <- list_fmap_compose. apply list_fmap_ext.
  intros _ w _. apply drop_kid_twice.
Qed.

(** What [unmountComponentAtNode] leaves of the root. *)
Lemma unmount_lookup (k j : Z) (s : world) :
  roots (unmountComponentAtNode k s) !! j =
  if decide (k = j)
  then (λ i, {| i_props := i_props i; i_timerRef := i_timerRef i;
                i_mounted := false |}) <$> roots s !! j
  else roots s !! j.
Proof.
  unfold unmountComponentAtNode.
  destruct (roots s !! k) as [i|] eqn:E.
  - destruct (i_mounted i) eqn:Em.
    + unfold cleanup, clearTimeout. destruct (String.eqb _ _); simpl;
        rewrite lookup_insert; case_decide; subst; rewrite ?E; done.
    + case_decide; subst; [|done]. rewrite E. simpl. destruct i; simpl in *; congruence.
  - case_decide; subst; [|done]. by rewrite E.
Qed.

Lemma mounted_unmount (k j : Z) (s : world) :
  mounted j (unmountComponentAtNode k s) =
  if decide (k = j) then false else mounted j s.
Proof.
  unfold mounted. rewrite unmount_lookup.
  case_decide; [|done]. by destruct (roots s !! j).
Qed.

Lemma unmount_unmounted (k : Z) (s : world) :
  mounted k s = false → unmountComponentAtNode k s = s.
Proof.
  unfold mounted, unmountComponentAtNode.
  destruct (roots s !! k) as [i|]; [|done]. by intros ->.
Qed.

Lemma roots_remove (k : Z) (s : world) : roots (remove k s) = roots s.
Proof. done. Qed.

Lemma mounted_remove (k j : Z) (s : world) : mounted j (remove k s) = mounted j s.
Proof. done. Qed.

Lemma mounted_close (m : MessageInstance) (j : Z) (s : world) :
  mounted j (close m s) = if decide (key m = j) then false else mounted j s.
Proof. unfold close. rewrite mounted_remove. apply mounted_unmount. Qed.

Lemma close_twice (m : MessageInstance) (s : world) : close m (close m s) = close m s.
Proof.
  unfold close.
  assert (mounted (key m) (remove (key m) (unmountComponentAtNode (key m) s)) = false) as H.
  { rewrite mounted_remove, mounted_unmount. by case_decide. }
  rewrite (unmount_unmounted _ _ H). apply remove_twice.
Qed.

(** The trace after a [close]: at most the one [onClosed] call of the
    cleanup is added. *)
Lemma trace_unmount (k : Z) (s : world) :
  trace (unmountComponentAtNode k s) =
  trace s ++
  match roots s !! k with
  | Some i =>
      if i_mounted i &&
         String.eqb (typeof (defaulted (prop (i_props i) "onClosed") noop)) "function"
      then [OnClosed k] else []
  | None => []
  end.
Proof.
  unfold unmountComponentAtNode.
  destruct (roots s !! k) as [i|]; [|by rewrite app_nil_r].
  destruct (i_mounted i); simpl; [|by rewrite app_nil_r].
  unfold cleanup. destruct (String.eqb _ _); simpl; [done|by rewrite app_nil_r].
Qed.

Lemma trace_close (m : MessageInstance) (s : world) :
  trace (close m s) = trace (unmountComponentAtNode (key m) s).
Proof. done. Qed.

(** Fields that [close] leaves alone. *)
Lemma close_frame (m : MessageInstance) (s : world) :
  MessageList (close m s) = MessageList s ∧ keyIndex (close m s) = keyIndex s ∧
  nextTimer (close m s) = nextTimer s ∧ now (close m s) = now s ∧
  nextElem (close m s) = nextElem s ∧
  length (page (close m s)) = length (page s).
Proof.
  unfold close, remove, unmountComponentAtNode, cleanup, clearTimeout.
  destruct (roots s !! key m) as [i|]; simpl; rewrite ?length_fmap; [|done].
  destruct (i_mounted i); simpl; rewrite ?length_fmap; [|done].
  destruct (String.eqb _ _); simpl; rewrite ?length_fmap; done.
Qed.

Lemma timers_close (m : MessageInstance) (s : world) :
  timers (close m s) =
  match roots s !! key m with
  | Some i => if i_mounted i then delete (i_timerRef i) (timers s) else timers s
  | None => timers s
  end.
Proof.
  unfold close, remove, unmountComponentAtNode, cleanup, clearTimeout.
  destruct (roots s !! key m) as [i|]; [|done].
  destruct (i_mounted i); [|done].
  destruct (String.eqb _ _); done.
Qed.

Lemma timers_close_sub (m : MessageInstance) (s : world) (id : Z) (t : timer) :
  timers (close m s) !! id = Some t → timers s !! id = Some t.
Proof.
  rewrite timers_close. destruct (roots s !! key m) as [i|]; [|done].
  destruct (i_mounted i); [|done].
  rewrite lookup_delete. case_decide; done.
Qed.

Lemma roots_close (m : MessageInstance) (j : Z) (s : world) :
  roots (close m s) !! j =
  if decide (key m = j)
  then (λ i, {| i_props := i_props i; i_timerRef := i_timerRef i;
                i_mounted := false |}) <$> roots s !! j
  else roots s !! j.
Proof. unfold close. rewrite roots_remove. apply unmount_lookup. Qed.

(** [startDuration] on a rendered root. *)
Lemma startDuration_Some (k : Z) (s : world) (i : inst) :
  roots s !! k = Some i →
  startDuration k s =
  set_roots
    (<[k := {| i_props := i_props i; i_timerRef := nextTimer s;
               i_mounted := i_mounted i |}]> (roots s))
    (set_nextTimer (nextTimer s + 1)
       (set_timers
          (<[nextTimer s :=
               {| t_due := now s + timerDelay (host s) (prop (i_props i) "duration");
                  t_owner := k;
                  t_onDurationEnd :=
                    defaulted (prop (i_props i) "onDurationEnd") noop |}]>
             (delete (i_timerRef i) (timers s))) s)).
Proof. intros E. unfold startDuration. by rewrite E. Qed.

(** The delay of a number that fits a signed 32-bit integer. *)
Lemma ToInt32_small (z : Z) : - 2 ^ 31 ≤ z ≤ 2 ^ 31 - 1 → ToInt32 z = z.
Proof.
  intros H. unfold ToInt32. rewrite Z.mod_small by lia. lia.
Qed.

Lemma timerDelay_small (h : Host) (z : Z) :
  0 ≤ z ≤ 2 ^ 31 - 1 → timerDelay h (VNum z) = z.
Proof.
  intros H. unfold timerDelay. rewrite ToInt32_small by lia. lia.
Qed.

Lemma timerDelay_negative (h : Host) (z : Z) :
  - 2 ^ 31 ≤ z ≤ 0 → timerDelay h (VNum z) = 0.
Proof.
  intros H. unfold timerDelay. rewrite ToInt32_small by lia. lia.
Qed.

Lemma timerDelay_nonneg (h : Host) (v : value) : 0 ≤ timerDelay h v.
Proof. unfold timerDelay. lia. Qed.

(** ** Counting [onClosed] calls *)

Lemma closedCount_app (k : Z) (tr1 tr2 : list event) :
  closedCount k (tr1 ++ tr2) = (closedCount k tr1 + closedCount k tr2)%nat.
Proof. unfold closedCount. by rewrite filter_app, length_app. Qed.

Lemma closedCount_OnClosed (k j : Z) :
  closedCount k [OnClosed j] = if decide (j = k) then 1%nat else 0%nat.
Proof.
  unfold closedCount. rewrite filter_cons. simpl.
  case_decide as H; case_decide as H'; try done.
Qed.

Lemma closedCount_OnDurationEnd (k j : Z) (m : MessageInstance) :
  closedCount k [OnDurationEnd j m] = 0%nat.
Proof. done. Qed.

(** ** The invariant of the reachable states *)

Lemma Inv_boot (h : Host) : Inv (boot h).
Proof.
  split; simpl; try done.
  - intros k. rewrite lookup_empty. split; [by intros []|lia].
  - intros m H. by apply elem_of_nil in H.
  - lia.
Qed.

Lemma Inv_close (m : MessageInstance) (s : world) : Inv s → Inv (close m s).
Proof.
  intros [I1 I2 I3 I4 I5 I6 I7 I8].
  destruct (close_frame m s) as (EL & EK & _ & _ & _ & EP).
  split; rewrite ?EL, ?EK, ?EP; try done.
  - intros k. rewrite roots_close, <- I2. case_decide; [|done].
    by rewrite fmap_is_Some.
  - intros k. rewrite trace_close, trace_unmount, closedCount_app, roots_close, I3.
    case_decide as Hk.
    + subst k. destruct (roots s !! key m) as [i|]; simpl; [|done].
      unfold callsOnClosed; simpl. fold (callsOnClosed i).
      destruct (i_mounted i); simpl.
      * destruct (callsOnClosed i); simpl; [|done].
        rewrite closedCount_OnClosed. by case_decide.
      * by rewrite Nat.add_0_r.
    + destruct (roots s !! key m) as [i|]; [|by rewrite Nat.add_0_r].
      destruct (_ && _); [|by rewrite Nat.add_0_r].
      rewrite closedCount_OnClosed. case_decide; [done|]. by rewrite Nat.add_0_r.
  - intros k. rewrite mounted_close. case_decide; [done|]. apply I4.
  - intros id t Ht. pose proof (timers_close_sub _ _ _ _ Ht) as Ht'.
    destruct (I7 _ _ Ht') as (i & Ei & Em & Er).
    rewrite roots_close. case_decide as Hk; [|by exists i].
    exfalso. rewrite timers_close, Hk, Ei, Em, <- Er, lookup_delete_eq in Ht. done.
Qed.

Lemma Inv_timers_sub (s : world) (ts : gmap Z timer) :
  Inv s → (∀ id t, ts !! id = Some t → timers s !! id = Some t) →
  Inv (set_timers ts s).
Proof.
  intros [I1 I2 I3 I4 I5 I6 I7 I8] Hsub. split; try done.
  intros id t Ht. apply (I7 id t), Hsub, Ht.
Qed.

Lemma Inv_clearTimeout (id : Z) (s : world) : Inv s → Inv (clearTimeout id s).
Proof.
  intros I. apply Inv_timers_sub; [done|].
  intros id' t. rewrite lookup_delete. by case_decide.
Qed.

Lemma Inv_onMouseEnter (k : Z) (s : world) : Inv s → Inv (onMouseEnter k s).
Proof.
  intros I. unfold onMouseEnter. destruct (roots s !! k); [|done].
  by apply Inv_clearTimeout.
Qed.

Lemma Inv_set_now (t : Z) (s : world) : Inv s → Inv (set_now t s).
Proof. intros [I1 I2 I3 I4 I5 I6 I7 I8]. by split. Qed.

Lemma Inv_set_page (p : list wrapper) (s : world) :
  Inv s → (length p ≤ 1)%nat → Inv (set_page p s).
Proof. intros [I1 I2 I3 I4 I5 I6 I7 I8] Hp. by split. Qed.

Lemma Inv_set_nextElem (n : nat) (s : world) : Inv s → Inv (set_nextElem n s).
Proof. intros [I1 I2 I3 I4 I5 I6 I7 I8]. by split. Qed.

Lemma Inv_log_OnDurationEnd (k : Z) (m : MessageInstance) (s : world) :
  Inv s → Inv (log (OnDurationEnd k m) s).
Proof.
  intros [I1 I2 I3 I4 I5 I6 I7 I8]. split; try done.
  intros j. simpl. rewrite closedCount_app, closedCount_OnDurationEnd, Nat.add_0_r.
  apply I3.
Qed.

Lemma Inv_startDuration (k : Z) (s : world) :
  Inv s → mounted k s = true → Inv (startDuration k s).
Proof.
  intros [I1 I2 I3 I4 I5 I6 I7 I8]. unfold mounted.
  destruct (roots s !! k) as [i|] eqn:E; [|done]. intros Em.
  rewrite (startDuration_Some _ _ _ E). split; simpl; try done.
  - intros j. rewrite lookup_insert. case_decide; [|apply I2].
    subst j. rewrite <- I2, E. split; by eauto.
  - intros j. rewrite I3, lookup_insert. case_decide; [|done].
    subst j. by rewrite E.
  - intros j. unfold mounted; simpl. rewrite lookup_insert.
    case_decide; simpl.
    + subst j. intros _. apply I4. unfold mounted. by rewrite E.
    + apply I4.
  - intros id t. rewrite lookup_insert. case_decide as Hid.
    + intros [= <-]. simpl. rewrite lookup_insert_eq. eauto.
    + rewrite lookup_delete. case_decide as Hr; [done|]. intros Ht.
      destruct (I7 _ _ Ht) as (i' & Ei' & Em' & Er').
      rewrite lookup_insert. case_decide as Hk; [|by eauto].
      exfalso. rewrite <- Hk, E in Ei'. congruence.
Qed.

Lemma Inv_onMouseLeave (k : Z) (s : world) :
  Inv s → mounted k s = true → Inv (onMouseLeave k s).
Proof. apply Inv_startDuration. Qed.

Lemma Inv_timerCallback (t : timer) (s : world) : Inv s → Inv (timerCallback t s).
Proof.
  intros I. unfold timerCallback. destruct (t_onDurationEnd t); try done.
  apply Inv_close. destruct h; [|apply Inv_close]; by apply Inv_log_OnDurationEnd.
Qed.

Lemma Inv_fire (id : Z) (s s' : world) : Inv s → fire id s = Some s' → Inv s'.
Proof.
  intros I. unfold fire. destruct (timers s !! id) as [t|]; [simpl|done].
  destruct (t_due t <=? now s); [|done]. intros [= <-].
  apply Inv_timerCallback, Inv_timers_sub; [done|].
  intros id' t'. rewrite lookup_delete. by case_decide.
Qed.

(** ** The sweep of [closeAll] *)

Lemma Inv_sweep (l : list MessageInstance) (s : world) : Inv s → Inv (sweep l s).
Proof.
  revert s. induction l as [|m l IH]; intros s I; [done|].
  simpl. apply IH. by apply Inv_close.
Qed.

Lemma sweep_frame (l : list MessageInstance) (s : world) :
  MessageList (sweep l s) = MessageList s ∧ keyIndex (sweep l s) = keyIndex s ∧
  now (sweep l s) = now s ∧ length (page (sweep l s)) = length (page s).
Proof.
  revert s. induction l as [|m l IH]; intros s; [done|].
  simpl. destruct (IH (close m s)) as (-> & -> & -> & ->).
  destruct (close_frame m s) as (-> & -> & _ & -> & _ & ->). done.
Qed.

(** After the sweep no swept handle is live, and nothing else changed its
    state. *)
Lemma mounted_sweep (l : list MessageInstance) (s : world) (k : Z) :
  mounted k (sweep l s) =
  if bool_decide ({| key := k |} ∈ l) then false else mounted k s.
Proof.
  revert s. induction l as [|m l IH]; intros s.
  - case_bool_decide as H; [by apply elem_of_nil in H|done].
  - change (sweep (m :: l) s) with (sweep l (close m s)).
    rewrite IH, mounted_close.
    case_bool_decide as El; case_bool_decide as Eml; try done.
    + exfalso. apply Eml, elem_of_cons. by right.
    + case_decide as Hk; [done|].
      apply elem_of_cons in Eml as [Heq|H]; [by subst m|done].
    + case_decide as Hk; [|done].
      exfalso. apply Eml, elem_of_cons. left. destruct m; simpl in *. by subst.
Qed.

Lemma Inv_closeAll (s : world) : Inv s → Inv (Message_closeAll s).
Proof.
  intros I. unfold Message_closeAll. fold (sweep (MessageList s) s).
  pose proof (Inv_sweep (MessageList s) s I) as [I1 I2 I3 I4 I5 I6 I7 I8].
  split; simpl; try done.
  - intros k Hk. exfalso. unfold mounted in Hk. simpl in Hk.
    fold (mounted k (sweep (MessageList s) s)) in Hk.
    rewrite mounted_sweep in Hk. case_bool_decide as Hin; [done|].
    apply Hin. by apply (inv_registry _ I).
  - intros m H. by apply elem_of_nil in H.
Qed.

(** ** Instance creation *)

Lemma createContainer_cases (cfg : gmap string value) (s s0 : world) (c : wrapper) :
  createContainer cfg s = Some (c, s0) →
  isValidElement (prop cfg "attach") = false ∧
  ((page s !! 0%nat = Some c ∧ s0 = s) ∨
   (page s = [] ∧ w_id c = nextElem s ∧ w_parent c = DocumentBody ∧
    w_zIndex c = prop cfg "zIndex" ∧ w_kids c = [] ∧
    w_offsets c = PlacementOffset (defaulted (prop cfg "placement") (VStr Top)) ∧
    is_Some (w_offsets c) ∧
    s0 = set_page [c] (set_nextElem (S (nextElem s)) s))).
Proof.
  unfold createContainer.
  destruct (isValidElement (prop cfg "attach")) eqn:Ea; [done|]. simpl.
  destruct (page s) as [|w p] eqn:Ep; simpl.
  - destruct (PlacementOffset _) as [o|] eqn:Eo; [simpl|done].
    intros [= <- <-]. split; [done|]. right. simpl. eauto 10.
  - intros [= <- <-]. split; [done|]. by left.
Qed.

(** The keys of the table are the names of the placements. *)
Lemma PlacementOffset_name (v : value) (p : Placement) :
  PlacementOffset v = Some p → v = VStr (placement_name p).
Proof.
  destruct v as [| | | |s| | | | |]; try done. simpl.
  repeat match goal with
         | |- context [String.eqb s ?x] =>
             destruct (String.eqb_spec s x) as [->|_]; [by intros [= <-]|]
         end.
  done.
Qed.

Lemma createContainer_frame (cfg : gmap string value) (s s0 : world) (c : wrapper) :
  createContainer cfg s = Some (c, s0) →
  MessageList s0 = MessageList s ∧ keyIndex s0 = keyIndex s ∧
  roots s0 = roots s ∧ timers s0 = timers s ∧ nextTimer s0 = nextTimer s ∧
  now s0 = now s ∧ trace s0 = trace s ∧ page s0 !! 0%nat = Some c ∧
  length (page s0) = Nat.max 1 (length (page s)).
Proof.
  intros H. destruct (createContainer_cases _ _ _ _ H) as [_ [[Hc ->]|(Hp & _ & _ & _ & _ & _ & _ & ->)]].
  - repeat split; try done. destruct (page s); [done|simpl; lia].
  - rewrite Hp. done.
Qed.

Lemma Inv_createContainer (cfg : gmap string value) (s s0 : world) (c : wrapper) :
  Inv s → createContainer cfg s = Some (c, s0) → Inv s0.
Proof.
  intros I H. destruct (createContainer_cases _ _ _ _ H) as [_ [[Hc ->]|(Hp & _ & _ & _ & _ & _ & _ & ->)]].
  - done.
  - apply Inv_set_page; [|done]. by apply Inv_set_nextElem.
Qed.

Lemma createContainer_host (cfg : gmap string value) (s s0 : world) (c : wrapper) :
  createContainer cfg s = Some (c, s0) → host s0 = host s.
Proof.
  intros H.
  destruct (createContainer_cases _ _ _ _ H)
    as [_ [[Hc ->]|(Hp & _ & _ & _ & _ & _ & _ & ->)]]; done.
Qed.

(** A factory call gives a handle exactly when [renderElement] mounts the
    instance. *)
Lemma Message_factory_mounted (theme : Theme) (content : value)
    (duration : option Z) (s s' : world) (m : MessageInstance) :
  Message_factory theme content duration s = Some (m, s') ↔
  ∃ b, renderElement theme (factoryConfig content duration) s
       = Some (Mounted b m s').
Proof.
  unfold Message_factory, Message_call.
  destruct (renderElement _ _ _) as [[b1 m1 s1|s1]|]; split;
    try done; try (by intros [? ?]).
  - intros [= -> ->]. by eauto.
  - by intros [b [= _ -> ->]].
Qed.

Lemma renderElement_eq (theme : Theme) (config : gmap string value)
    (s s' : world) (m : MessageInstance) {b : bool} :
  renderElement theme config s = Some (Mounted b m s') →
  ∃ c s0, createContainer config s = Some (c, s0) ∧
    m = {| key := keyIndex s + 1 |} ∧
    s' = appendChild c (key m)
           (if String.eqb (typeof (prop (elementProps theme config) "duration")) "number"
            then startDuration (key m) (mountAt (key m) (elementProps theme config) s0)
            else mountAt (key m) (elementProps theme config) s0).
Proof.
  unfold renderElement.
  destruct (createContainer config s) as [[c s0]|] eqn:Ec; [simpl|done].
  unfold render. destruct (reactRenders _ _); [|done].
  intros [= _ <- <-]. exists c, s0.
  destruct (createContainer_frame _ _ _ _ Ec) as (_ & EK & _).
  rewrite EK. split; [done|]. split; [done|]. simpl.
  destruct (String.eqb _ _); [|done].
  unfold startDuration, mountAt. simpl. rewrite !lookup_insert_eq. done.
Qed.

(** The promise settles as [ReactDOM.render] goes. *)
Lemma renderElement_settles (theme : Theme) (config : gmap string value)
    (s s0 : world) (c : wrapper) :
  createContainer config s = Some (c, s0) →
  if reactRenders (elementProps theme config) s
  then ∃ m s', renderElement theme config s
               = Some (Mounted (bool_decide (config !! "ref" = None)) m s')
  else renderElement theme config s
       = Some (Rejected (set_keyIndex (keyIndex s + 1) s0)).
Proof.
  intros Ec. unfold renderElement. rewrite Ec. simpl.
  destruct (createContainer_frame _ _ _ _ Ec) as (_ & EK & _).
  unfold render, reactRenders. simpl.
  rewrite (createContainer_host _ _ _ _ Ec), EK.
  destruct (_ && _); [by eauto|done].
Qed.

Lemma increasing_snoc (l : list MessageInstance) (m : MessageInstance) :
  increasing l → (∀ m', m' ∈ l → key m' < key m) → increasing (l ++ [m]).
Proof.
  intros Hl Hm a b ma mb Hab Ha Hb.
  destruct (decide (b < length l)%nat) as [Hlt|Hge].
  - rewrite lookup_app_l in Ha by lia. rewrite lookup_app_l in Hb by lia.
    by apply (Hl a b).
  - rewrite lookup_app_r in Hb by lia.
    apply list_lookup_singleton_Some in Hb as [Hb <-].
    rewrite lookup_app_l in Ha by lia.
    apply Hm. apply list_elem_of_lookup. eauto.
Qed.

Lemma Inv_mountAt (props : gmap string value) (s : world) :
  Inv s → Inv (mountAt (keyIndex s + 1) props s).
Proof.
  intros [I1 I2 I3 I4 I5 I6 I7 I8].
  assert (roots s !! (keyIndex s + 1) = None) as Hfresh.
  { apply eq_None_not_Some. rewrite I2. lia. }
  split; simpl; try done.
  - lia.
  - intros j. rewrite lookup_insert. case_decide.
    + subst j. split; [lia|by eauto].
    + rewrite I2. lia.
  - intros j. rewrite lookup_insert. case_decide; [|apply I3].
    subst j. simpl. by rewrite I3, Hfresh.
  - intros j. unfold mounted; simpl. rewrite lookup_insert. case_decide.
    + subst j. intros _. apply elem_of_app. right. by apply list_elem_of_singleton.
    + intros Hj. apply elem_of_app. left. by apply I4.
  - apply increasing_snoc; [done|]. intros m' Hm'. simpl.
    specialize (I6 _ Hm'). lia.
  - intros m' [Hm'| ->%list_elem_of_singleton]%elem_of_app; simpl.
    + specialize (I6 _ Hm'). lia.
    + lia.
  - intros id t Ht. destruct (I7 _ _ Ht) as (i & Ei & Em & Er).
    exists i. rewrite lookup_insert_ne; [done|]. intros Hk.
    rewrite <- Hk in Ei. congruence.
Qed.

Lemma mounted_mountAt (k : Z) (props : gmap string value) (s : world) :
  mounted k (mountAt k props s) = true.
Proof. unfold mounted, mountAt; simpl. by rewrite lookup_insert_eq. Qed.

Lemma Inv_appendChild (c : wrapper) (k : Z) (s : world) :
  Inv s → Inv (appendChild c k s).
Proof. intros I. apply Inv_set_page; [done|]. rewrite length_fmap. apply I. Qed.

Lemma Inv_renderElement (theme : Theme) (config : gmap string value)
    (s s' : world) (m : MessageInstance) {b : bool} :
  Inv s → renderElement theme config s = Some (Mounted b m s') → Inv s'.
Proof.
  intros I H. destruct (renderElement_eq _ _ _ _ _ H) as (c & s0 & Ec & -> & ->).
  pose proof (Inv_createContainer _ _ _ _ I Ec) as I0.
  destruct (createContainer_frame _ _ _ _ Ec) as (_ & EK & _).
  simpl. rewrite <- EK. apply Inv_appendChild.
  destruct (String.eqb _ _); [|by apply Inv_mountAt].
  apply Inv_startDuration; [by apply Inv_mountAt|apply mounted_mountAt].
Qed.

Lemma Inv_step (s s' : world) (a : action) : Inv s → step s a = Some s' → Inv s'.
Proof.
  intros I. destruct a as [theme content d|m| |k|k|dt|id]; simpl.
  - destruct (Message_factory _ _ _ _) as [[m s1]|] eqn:E; [simpl|done].
    apply Message_factory_mounted in E as [rb E].
    intros [= <-]. by eapply Inv_renderElement.
  - case_bool_decide; [|done]. intros [= <-]. by apply Inv_close.
  - intros [= <-]. by apply Inv_closeAll.
  - destruct (mounted k s) eqn:Em; [|done]. intros [= <-]. by apply Inv_onMouseEnter.
  - destruct (mounted k s) eqn:Em; [|done]. intros [= <-]. by apply Inv_onMouseLeave.
  - destruct (0 <=? dt); [|done]. intros [= <-]. by apply Inv_set_now.
  - by apply Inv_fire.
Qed.

Lemma Inv_run (acts : list action) (s s' : world) :
  Inv s → run acts s = Some s' → Inv s'.
Proof.
  revert s. induction acts as [|a acts IH]; intros s I; simpl.
  - by intros [= <-].
  - destruct (step s a) as [s1|] eqn:E; [simpl|done].
    apply IH. by eapply Inv_step.
Qed.

Lemma Inv_reachable (s : world) : reachable s → Inv s.
Proof. intros (h & acts & H). eapply Inv_run; [apply Inv_boot|done]. Qed.

Lemma typeof_number (v : value) :
  String.eqb (typeof v) "number" = true ↔ ∃ z, v = VNum z.
Proof.
  destruct v; simpl; split; try done; try (by intros [? ?]). by eauto.
Qed.

Lemma elementProps_lookup (theme : Theme) (config : gmap string value) (k : string) :
  k ≠ "children" → k ≠ "theme" → k ≠ "style" →
  elementProps theme config !! k = config !! k.
Proof.
  intros H1 H2 H3. unfold elementProps.
  rewrite lookup_insert_ne by done.
  destruct (config !! k) as [v|] eqn:E.
  - by apply lookup_union_Some_l.
  - rewrite lookup_union_r by done.
    rewrite lookup_insert_ne by done. by rewrite lookup_singleton_ne.
Qed.

Lemma elementProps_children (theme : Theme) (config : gmap string value) :
  prop (elementProps theme config) "children" = prop config "content".
Proof. unfold elementProps, prop at 1. by rewrite lookup_insert_eq. Qed.

Lemma elementProps_duration (theme : Theme) (config : gmap string value) :
  prop (elementProps theme config) "duration" = prop config "duration".
Proof. unfold prop. by rewrite elementProps_lookup. Qed.

Lemma startDuration_mountAt (k : Z) (props : gmap string value) (s : world) :
  ∃ s1, startDuration k (mountAt k props s) = s1 ∧
    MessageList s1 = MessageList s ++ [{| key := k |}] ∧ keyIndex s1 = k ∧
    page s1 = page s ∧ now s1 = now s ∧ trace s1 = trace s ∧
    nextTimer s1 = nextTimer s + 1 ∧
    roots s1 =
      <[k := {| i_props := props; i_timerRef := nextTimer s; i_mounted := true |}]>
        (roots s) ∧
    timers s1 =
      <[nextTimer s :=
          {| t_due := now s + timerDelay (host s) (prop props "duration");
             t_owner := k;
             t_onDurationEnd := defaulted (prop props "onDurationEnd") noop |}]>
        (delete 0 (timers s)).
Proof.
  eexists. split; [reflexivity|].
  rewrite (startDuration_Some k _
             {| i_props := props; i_timerRef := 0; i_mounted := true |})
    by (unfold mountAt; simpl; apply lookup_insert_eq).
  simpl. repeat split; try done. by rewrite insert_insert_eq.
Qed.

(** The root and the timer that a successful [renderElement] leaves. *)
Lemma renderElement_root (theme : Theme) (config : gmap string value)
    (s s' : world) (m : MessageInstance) {b : bool} :
  renderElement theme config s = Some (Mounted b m s') →
  key m = keyIndex s + 1 ∧ keyIndex s' = keyIndex s + 1 ∧
  MessageList s' = MessageList s ++ [m] ∧
  now s' = now s ∧ trace s' = trace s ∧
  (∀ j, j ≠ key m → roots s' !! j = roots s !! j) ∧
  match prop config "duration" with
  | VNum z =>
      roots s' !! key m =
        Some {| i_props := elementProps theme config;
                i_timerRef := nextTimer s; i_mounted := true |} ∧
      timers s' =
        <[nextTimer s :=
            {| t_due := now s + timerDelay (host s) (VNum z); t_owner := key m;
               t_onDurationEnd :=
                 defaulted (prop (elementProps theme config) "onDurationEnd") noop |}]>
          (delete 0 (timers s))
  | _ =>
      roots s' !! key m =
        Some {| i_props := elementProps theme config;
                i_timerRef := 0; i_mounted := true |} ∧
      timers s' = timers s
  end.
Proof.
  intros H. destruct (renderElement_eq _ _ _ _ _ H) as (c & s0 & Ec & -> & ->).
  destruct (createContainer_frame _ _ _ _ Ec) as (EL & EK & ER & ET & EN & EW & ETr & _).
  pose proof (createContainer_host _ _ _ _ Ec) as EH.
  simpl key.
  destruct (startDuration_mountAt (keyIndex s + 1) (elementProps theme config) s0)
    as (s1 & E1 & L1 & K1 & _ & W1 & T1 & _ & R1 & TM1).
  rewrite E1, elementProps_duration.
  destruct (prop config "duration") eqn:Ed; simpl;
    rewrite ?L1, ?K1, ?W1, ?T1, ?R1, ?TM1, ?EL, ?EK, ?ER, ?ET, ?EN, ?EW, ?ETr, ?EH,
      ?lookup_insert_eq;
    repeat split; try done;
    try (intros j Hj; rewrite ?lookup_insert_ne; done).
  by rewrite elementProps_duration, Ed.
Qed.

(** ** What the remaining operations leave alone *)

Lemma startDuration_frame (k : Z) (s : world) :
  MessageList (startDuration k s) = MessageList s ∧
  keyIndex (startDuration k s) = keyIndex s ∧
  page (startDuration k s) = page s ∧ now (startDuration k s) = now s ∧
  trace (startDuration k s) = trace s.
Proof. unfold startDuration. by destruct (roots s !! k). Qed.

Lemma onMouseEnter_frame (k : Z) (s : world) :
  MessageList (onMouseEnter k s) = MessageList s ∧
  keyIndex (onMouseEnter k s) = keyIndex s ∧
  roots (onMouseEnter k s) = roots s ∧ now (onMouseEnter k s) = now s ∧
  trace (onMouseEnter k s) = trace s.
Proof. unfold onMouseEnter. by destruct (roots s !! k). Qed.

Lemma timerCallback_frame (t : timer) (s : world) :
  MessageList (timerCallback t s) = MessageList s ∧
  keyIndex (timerCallback t s) = keyIndex s ∧
  now (timerCallback t s) = now s.
Proof.
  unfold timerCallback. destruct (t_onDurationEnd t); try done.
  destruct h.
  - destruct (close_frame {| key := t_owner t |}
                (log (OnDurationEnd (t_owner t) {| key := t_owner t |}) s))
      as (-> & -> & _ & -> & _). done.
  - destruct (close_frame {| key := t_owner t |}
                (close {| key := t_owner t |}
                   (log (OnDurationEnd (t_owner t) {| key := t_owner t |}) s)))
      as (-> & -> & _ & -> & _).
    destruct (close_frame {| key := t_owner t |}
                (log (OnDurationEnd (t_owner t) {| key := t_owner t |}) s))
      as (-> & -> & _ & -> & _). done.
Qed.

Lemma fire_frame (id : Z) (s s' : world) :
  fire id s = Some s' →
  MessageList s' = MessageList s ∧ keyIndex s' = keyIndex s ∧ now s' = now s.
Proof.
  unfold fire. destruct (timers s !! id) as [t|]; [simpl|done].
  destruct (t_due t <=? now s); [|done]. intros [= <-].
  apply (timerCallback_frame t (set_timers (delete id (timers s)) s)).
Qed.

(** Time never runs backwards. *)
Lemma step_now (s s' : world) (a : action) : step s a = Some s' → now s ≤ now s'.
Proof.
  destruct a as [theme content d|m| |k|k|dt|id]; simpl.
  - destruct (Message_factory _ _ _ _) as [[m s1]|] eqn:E; [simpl|done].
    apply Message_factory_mounted in E as [rb E].
    intros [= <-]. destruct (renderElement_root _ _ _ _ _ E) as (_ & _ & _ & -> & _). lia.
  - case_bool_decide; [|done]. intros [= <-].
    destruct (close_frame m s) as (_ & _ & _ & -> & _). lia.
  - intros [= <-]. unfold Message_closeAll. simpl.
    fold (sweep (MessageList s) s).
    destruct (sweep_frame (MessageList s) s) as (_ & _ & -> & _). lia.
  - destruct (mounted k s); [|done]. intros [= <-].
    destruct (onMouseEnter_frame k s) as (_ & _ & _ & -> & _). lia.
  - destruct (mounted k s); [|done]. intros [= <-]. unfold onMouseLeave.
    destruct (startDuration_frame k s) as (_ & _ & _ & -> & _). lia.
  - destruct (0 <=? dt) eqn:E; [|done]. intros [= <-]. simpl. lia.
  - intros H. destruct (fire_frame _ _ _ H) as (_ & _ & ->). lia.
Qed.

Lemma run_now (acts : list action) (s s' : world) :
  run acts s = Some s' → now s ≤ now s'.
Proof.
  revert s. induction acts as [|a acts IH]; intros s; simpl.
  - intros [= <-]. lia.
  - destruct (step s a) as [s1|] eqn:E; [simpl|done].
    intros H. apply step_now in E. apply IH in H. lia.
Qed.

Lemma run_app (acts1 acts2 : list action) (s : world) :
  run (acts1 ++ acts2) s = run acts1 s ≫= run acts2.
Proof.
  revert s. induction acts1 as [|a acts1 IH]; intros s; simpl; [done|].
  destruct (step s a); simpl; [apply IH|done].
Qed.

(** ** The argument of a factory *)

Lemma isConfig_spec (v : value) :
  isConfig v = true ↔
  ∃ o c, v = VObj o ∧ o !! "content" = Some c ∧ truthy c = true.
Proof.
  destruct v; simpl; try (split; [done|by intros (? & ? & ? & _)]).
  unfold isConfig, get, prop. simpl.
  destruct (o !! "content") as [c|] eqn:E; simpl.
  - split; [by eauto|]. intros (o' & c' & [= <-] & Ec & Ht). by simplify_eq.
  - split; [done|]. intros (o' & c' & [= <-] & Ec & Ht). by simplify_eq.
Qed.

Lemma factoryConfig_plain (v : value) (d : option Z) :
  isConfig v = false →
  factoryConfig v d !! "content" = Some v ∧
  factoryConfig v d !! "duration" = Some (VNum (default globalConfig.duration d)).
Proof.
  intros E. unfold factoryConfig. rewrite E. split.
  - rewrite lookup_insert_ne by done. by rewrite lookup_insert_eq.
  - rewrite !lookup_insert_ne by done. by rewrite lookup_singleton_eq.
Qed.

Lemma factoryConfig_object (v : value) (d : option Z) :
  isConfig v = true →
  factoryConfig v d !! "content" = fields v !! "content" ∧
  factoryConfig v d !! "duration" =
    match fields v !! "duration" with
    | Some x => Some x
    | None => Some (VNum (default globalConfig.duration d))
    end.
Proof.
  intros E. unfold factoryConfig. rewrite E.
  rewrite !lookup_insert_ne by done. split.
  - destruct (fields v !! "content") as [c|] eqn:Ec.
    + by apply lookup_union_Some_l.
    + rewrite lookup_union_r by done. by rewrite lookup_singleton_ne.
  - destruct (fields v !! "duration") as [x|] eqn:Ex.
    + by apply lookup_union_Some_l.
    + rewrite lookup_union_r by done. by rewrite lookup_singleton_eq.
Qed.

(** ** The props of a root never change *)

Lemma propsOf_close (m : MessageInstance) (k : Z) (s : world) :
  propsOf k (close m s) = propsOf k s.
Proof.
  unfold propsOf. rewrite roots_close. case_decide; [|done].
  by destruct (roots s !! k).
Qed.

Lemma propsOf_sweep (l : list MessageInstance) (k : Z) (s : world) :
  propsOf k (sweep l s) = propsOf k s.
Proof.
  revert s. induction l as [|m l IH]; intros s; [done|].
  change (sweep (m :: l) s) with (sweep l (close m s)).
  by rewrite IH, propsOf_close.
Qed.

Lemma propsOf_startDuration (j k : Z) (s : world) :
  propsOf k (startDuration j s) = propsOf k s.
Proof.
  unfold propsOf, startDuration.
  destruct (roots s !! j) as [i|] eqn:E; [simpl|done].
  rewrite lookup_insert. case_decide; [|done]. subst. by rewrite E.
Qed.

Lemma propsOf_timerCallback (t : timer) (k : Z) (s : world) :
  propsOf k (timerCallback t s) = propsOf k s.
Proof.
  unfold timerCallback. destruct (t_onDurationEnd t); try done.
  destruct h; by rewrite ?propsOf_close.
Qed.

Lemma propsOf_step (s s' : world) (a : action) (k : Z) :
  Inv s → step s a = Some s' → is_Some (roots s !! k) →
  propsOf k s' = propsOf k s.
Proof.
  intros I H Hk. destruct a as [theme content d|m| |j|j|dt|id]; simpl in H.
  - destruct (Message_factory _ _ _ _) as [[m s1]|] eqn:E; [simpl in H|done].
    apply Message_factory_mounted in E as [rb E].
    injection H as <-.
    destruct (renderElement_root _ _ _ _ _ E) as (Hm & _ & _ & _ & _ & Hr & _).
    unfold propsOf. rewrite Hr; [done|].
    apply (inv_issued _ I) in Hk. lia.
  - case_bool_decide; [|done]. injection H as <-. apply propsOf_close.
  - injection H as <-. unfold Message_closeAll. apply (propsOf_sweep (MessageList s)).
  - destruct (mounted j s); [|done]. injection H as <-.
    unfold propsOf. by destruct (onMouseEnter_frame j s) as (_ & _ & -> & _).
  - destruct (mounted j s); [|done]. injection H as <-. apply propsOf_startDuration.
  - destruct (0 <=? dt); [|done]. by injection H as <-.
  - unfold fire in H. destruct (timers s !! id) as [t|]; [simpl in H|done].
    destruct (t_due t <=? now s); [|done]. injection H as <-.
    by rewrite propsOf_timerCallback.
Qed.

(** ** Staying mounted *)

Lemma mounted_startDuration (j k : Z) (s : world) :
  mounted k (startDuration j s) = mounted k s.
Proof.
  unfold mounted, startDuration.
  destruct (roots s !! j) as [i|] eqn:E; [simpl|done].
  rewrite lookup_insert. case_decide; [|done]. subst. by rewrite E.
Qed.

Lemma timers_startDuration (j : Z) (s : world) (i : inst) (id : Z) (t : timer) :
  roots s !! j = Some i →
  timers (startDuration j s) !! id = Some t →
  (id = nextTimer s ∧ t_owner t = j ∧
   t_due t = now s + timerDelay (host s) (prop (i_props i) "duration")) ∨
  (id ≠ i_timerRef i ∧ timers s !! id = Some t).
Proof.
  intros E. rewrite (startDuration_Some _ _ _ E). simpl.
  rewrite lookup_insert. case_decide.
  - intros [= <-]. left. by subst.
  - rewrite lookup_delete. case_decide; [done|]. by right.
Qed.

Lemma mounted_timerCallback (t : timer) (k : Z) (s : world) :
  k ≠ t_owner t → mounted k (timerCallback t s) = mounted k s.
Proof.
  intros Hk. unfold timerCallback. destruct (t_onDurationEnd t); try done.
  destruct h; rewrite !mounted_close; simpl; by case_decide.
Qed.

Lemma timers_timerCallback_sub (t : timer) (s : world) (id : Z) (x : timer) :
  timers (timerCallback t s) !! id = Some x → timers s !! id = Some x.
Proof.
  unfold timerCallback. destruct (t_onDurationEnd t); try done.
  destruct h; intros H; repeat apply timers_close_sub in H; done.
Qed.

Lemma timers_onMouseEnter (k : Z) (s : world) (id : Z) (t : timer) :
  Inv s → timers (onMouseEnter k s) !! id = Some t →
  timers s !! id = Some t ∧ t_owner t ≠ k.
Proof.
  intros I. unfold onMouseEnter.
  destruct (roots s !! k) as [i|] eqn:E; simpl.
  - rewrite lookup_delete. case_decide as Hid; [done|]. intros Ht.
    split; [done|]. intros Hk.
    destruct (inv_timers _ I _ _ Ht) as (i' & Ei' & _ & Er). congruence.
  - intros Ht. split; [done|]. intros Hk.
    destruct (inv_timers _ I _ _ Ht) as (i' & Ei' & _). congruence.
Qed.

Lemma step_safeUntil (s s' : world) (a : action) (k T : Z) :
  Inv s → safeUntil k T s → step s a = Some s' →
  disturbs k a = false → now s' < T → safeUntil k T s'.
Proof.
  intros I [Hm Ht] Hs Hd Hnow.
  assert (is_Some (roots s !! k)) as Hk.
  { unfold mounted in Hm. destruct (roots s !! k); [by eauto|done]. }
  destruct a as [theme content d|m| |j|j|dt|id]; simpl in Hs, Hd.
  - destruct (Message_factory _ _ _ _) as [[m s1]|] eqn:E; [simpl in Hs|done].
    apply Message_factory_mounted in E as [rb E].
    injection Hs as <-.
    destruct (renderElement_root _ _ _ _ _ E) as (Hkm & _ & _ & _ & _ & Hr & Hd').
    assert (k ≠ key m) as Hne by (apply (inv_issued _ I) in Hk; lia).
    split.
    + unfold mounted. rewrite Hr by done. exact Hm.
    + intros id t. destruct (prop _ "duration"); destruct Hd' as [_ ->]; try apply Ht.
      rewrite lookup_insert. case_decide; [by intros [= <-]|].
      rewrite lookup_delete. case_decide; [done|]. apply Ht.
  - apply bool_decide_eq_false in Hd.
    case_bool_decide as Hkm; [|done]. injection Hs as <-. split.
    + rewrite mounted_close. by case_decide.
    + intros id t H. apply timers_close_sub in H. by apply (Ht id).
  - done.
  - destruct (mounted j s); [|done]. injection Hs as <-. split.
    + unfold mounted. by destruct (onMouseEnter_frame j s) as (_ & _ & -> & _).
    + intros id t H. apply timers_onMouseEnter in H as [H _]; [|done].
      by apply (Ht id).
  - destruct (mounted j s) eqn:Emj; [|done]. injection Hs as <-.
    apply bool_decide_eq_false in Hd. unfold onMouseLeave. split.
    + by rewrite mounted_startDuration.
    + unfold mounted in Emj. destruct (roots s !! j) as [i|] eqn:Ej; [|done].
      intros id t H.
      apply (timers_startDuration _ _ i) in H as [(_ & Ho & _)|[_ H]]; [| |done].
      * intros Hk'. congruence.
      * by apply (Ht id).
  - destruct (0 <=? dt); [|done]. by injection Hs as <-.
  - pose proof (fire_frame _ _ _ Hs) as (_ & _ & Hn).
    unfold fire in Hs. destruct (timers s !! id) as [t|] eqn:Et; [simpl in Hs|done].
    destruct (t_due t <=? now s) eqn:Edue; [|done]. injection Hs as <-.
    apply Z.leb_le in Edue.
    assert (k ≠ t_owner t) as Hne.
    { intros ->. pose proof (Ht _ _ Et eq_refl). lia. }
    split.
    + by rewrite mounted_timerCallback.
    + intros id' t' H. apply timers_timerCallback_sub in H. simpl in H.
      rewrite lookup_delete in H. case_decide; [done|]. by apply (Ht id').
Qed.

Lemma run_safeUntil (acts : list action) (s s' : world) (k T : Z) :
  Inv s → safeUntil k T s → run acts s = Some s' →
  calm k acts → now s' < T → safeUntil k T s'.
Proof.
  revert s. induction acts as [|a acts IH]; intros s I Hsafe Hrun Hc Hnow; simpl in Hrun.
  - by injection Hrun as <-.
  - destruct (step s a) as [s1|] eqn:E; [simpl in Hrun|done].
    apply Forall_cons in Hc as [Ha Hc].
    apply (IH s1); try done.
    + by eapply Inv_step.
    + eapply step_safeUntil; try done. apply run_now in Hrun. lia.
Qed.

Lemma propsOf_run (acts : list action) (s s' : world) (k : Z) :
  Inv s → run acts s = Some s' → is_Some (roots s !! k) →
  propsOf k s' = propsOf k s.
Proof.
  revert s. induction acts as [|a acts IH]; intros s I Hrun Hk; simpl in Hrun.
  - by injection Hrun as <-.
  - destruct (step s a) as [s1|] eqn:E; [simpl in Hrun|done].
    pose proof (propsOf_step _ _ _ k I E Hk) as Hp.
    rewrite <- Hp. apply IH; [by eapply Inv_step|done|].
    unfold propsOf in Hp. destruct Hk as [i Ei]. rewrite Ei in Hp.
    destruct (roots s1 !! k); [by eauto|done].
Qed.

(** ** The callback of a timer *)

Lemma timerCallback_function (t : timer) (s : world) :
  typeof (t_onDurationEnd t) = "function" →
  timerCallback t s =
  close {| key := t_owner t |}
    (log (OnDurationEnd (t_owner t) {| key := t_owner t |}) s).
Proof.
  unfold timerCallback. destruct (t_onDurationEnd t); try done.
  intros _. destruct h; [done|]. apply close_twice.
Qed.

Lemma timerCallback_cases (t : timer) (s : world) :
  (typeof (t_onDurationEnd t) = "function" ∧
   timerCallback t s =
     close {| key := t_owner t |}
       (log (OnDurationEnd (t_owner t) {| key := t_owner t |}) s)) ∨
  (typeof (t_onDurationEnd t) ≠ "function" ∧ timerCallback t s = s).
Proof.
  destruct (t_onDurationEnd t) eqn:E;
    try (right; split; [done|]; unfold timerCallback; by rewrite E).
  left. split; [done|]. apply timerCallback_function. by rewrite E.
Qed.

Lemma fire_cases (id : Z) (s s' : world) :
  fire id s = Some s' →
  ∃ t, timers s !! id = Some t ∧ t_due t ≤ now s ∧
       s' = timerCallback t (set_timers (delete id (timers s)) s).
Proof.
  unfold fire. destruct (timers s !! id) as [t|]; [simpl|done].
  destruct (t_due t <=? now s) eqn:E; [|done]. intros [= <-].
  exists t. apply Z.leb_le in E. done.
Qed.

Lemma elementProps_onDurationEnd (theme : Theme) (config : gmap string value) :
  prop (elementProps theme config) "onDurationEnd" = prop config "onDurationEnd".
Proof. unfold prop. by rewrite elementProps_lookup. Qed.

(** The host never changes. *)
Lemma host_close (m : MessageInstance) (s : world) : host (close m s) = host s.
Proof.
  unfold close, remove, unmountComponentAtNode, cleanup, clearTimeout.
  destruct (roots s !! key m) as [i|]; [|done].
  destruct (i_mounted i); [|done]. by destruct (String.eqb _ _).
Qed.

Lemma host_startDuration (k : Z) (s : world) : host (startDuration k s) = host s.
Proof. unfold startDuration. by destruct (roots s !! k). Qed.

(** * The properties of the specification *)

(** ** C1: which durations arm a timer *)

(** Against C1 as stated: a message created with duration 0 has a timer
    armed on mount, due at once, and is closed when it fires; a message
    created through a factory without duration gets the default 3000, has a
    timer armed, and is closed when it fires. *)
Lemma zero_and_omitted_duration_arm_a_timer :
  timers <$> run [Create info (VStr "x") (Some 0)] initial
    = Some {[ 1 := {| t_due := 0; t_owner := 2; t_onDurationEnd := noop |} ]} ∧
  mounted 2 <$> run [Create info (VStr "x") (Some 0); Fire 1] initial
    = Some false ∧
  timers <$> run [Create info (VStr "x") None] initial
    = Some {[ 1 := {| t_due := 3000; t_owner := 2; t_onDurationEnd := noop |} ]} ∧
  mounted 2 <$> run [Create info (VStr "x") None; Elapse 3000; Fire 1] initial
    = Some false.
Proof. repeat split; vm_compute; reflexivity. Qed.

(** C1, amended. On mount a timer is armed exactly when the duration of
    the instance is a number, zero included. Its delay is the one
    [setTimeout] makes of the number, a signed 32-bit integer: the timer is
    due after that many milliseconds for a number from 0 to 2^31 - 1, and at
    once for 0 and for a negative number down to -2^31. Once it is due it
    can fire, and the instance is then closed when its [onDurationEnd] is
    callable (a function, or left out); with any other [onDurationEnd] the
    instance stays. A factory call with plain content always has a number:
    the duration of the call, or the default 3000 when it is left out. An
    instance whose duration is not a number (a configuration object with
    [duration: undefined]) has no timer armed on mount, and as long as the
    pointer does not leave it, no timer is armed for it later and it stays
    mounted until it is closed through its handle or by [closeAll]. *)
Theorem timer_armed_iff_number (s : world)
    (theme : Theme) (content : value) (d : option Z)
    (m : MessageInstance) (s' : world) :
  reachable s →
  Message_factory theme content d s = Some (m, s') →
  (isConfig content = false →
     prop (factoryConfig content d) "duration"
       = VNum (default globalConfig.duration d)) ∧
  (∀ z, prop (factoryConfig content d) "duration" = VNum z →
     ∃ t, timers s' !! nextTimer s = Some t ∧ t_owner t = key m ∧
       t_onDurationEnd t
         = defaulted (prop (factoryConfig content d) "onDurationEnd") noop ∧
       t_due t = now s' + timerDelay (host s) (VNum z) ∧
       (0 ≤ z ≤ 2 ^ 31 - 1 → t_due t = now s' + z) ∧
       (- 2 ^ 31 ≤ z ≤ 0 → t_due t = now s') ∧
       ∀ dt, timerDelay (host s) (VNum z) ≤ dt →
         ∃ s2, run [Elapse dt; Fire (nextTimer s)] s' = Some s2 ∧
           (typeof (t_onDurationEnd t) = "function" → mounted (key m) s2 = false) ∧
           (typeof (t_onDurationEnd t) ≠ "function" → mounted (key m) s2 = true)) ∧
  ((∀ z, prop (factoryConfig content d) "duration" ≠ VNum z) →
     (∀ id t, timers s' !! id = Some t → t_owner t ≠ key m) ∧
     ∀ acts' s'', run acts' s' = Some s'' → calm (key m) acts' →
       mounted (key m) s'' = true ∧
       ∀ id t, timers s'' !! id = Some t → t_owner t ≠ key m).
Proof.
  intros Hreach H. pose proof (Inv_reachable _ Hreach) as I.
  assert (Inv s') as I'.
  { apply (Inv_step s s' (Create theme content d) I). simpl. by rewrite H. }
  apply Message_factory_mounted in H as [rb H].
  destruct (renderElement_root _ _ _ _ _ H) as (Hk & _ & _ & Hn & _ & _ & Hr).
  split; [|split].
  - intros Hc. destruct (factoryConfig_plain content d Hc) as [_ Hd].
    unfold prop. by rewrite Hd.
  - intros z Hz. rewrite Hz in Hr. destruct Hr as [Hroot Htm].
    pose proof (timerDelay_nonneg (host s) (VNum z)) as Hnn.
    set (dl := timerDelay (host s) (VNum z)) in *.
    set (t := {| t_due := now s + dl; t_owner := key m;
                 t_onDurationEnd :=
                   defaulted (prop (elementProps theme (factoryConfig content d))
                                "onDurationEnd") noop |}) in *.
    assert (timers s' !! nextTimer s = Some t) as Ht
      by (rewrite Htm; apply lookup_insert_eq).
    exists t. split; [done|]. split; [done|].
    split; [simpl; by rewrite elementProps_onDurationEnd|].
    split; [simpl; by rewrite Hn|].
    split; [intros Hz'; simpl; unfold dl; rewrite Hn, timerDelay_small by done; done|].
    split; [intros Hz'; simpl; unfold dl; rewrite Hn, timerDelay_negative by done; lia|].
    intros dt Hdt.
    set (s0 := set_timers (delete (nextTimer s) (timers s')) (set_now (now s' + dt) s')).
    exists (timerCallback t s0). split.
    + simpl. rewrite (proj2 (Z.leb_le 0 dt)) by lia. simpl.
      unfold fire. simpl. rewrite Ht. simpl.
      rewrite (proj2 (Z.leb_le (now s + dl) (now s' + dt))) by lia. done.
    + destruct (timerCallback_cases t s0) as [[Hf ->]|[Hf ->]].
      * split; [|done]. intros _. rewrite mounted_close. simpl. by case_decide.
      * split; [done|]. intros _. unfold mounted. simpl. by rewrite Hroot.
  - intros Hnn.
    assert (∀ id t, timers s' !! id = Some t → t_owner t ≠ key m) as Hno.
    { intros id t Ht Ho.
      assert (timers s !! id = Some t) as Ht'.
      { destruct (prop (factoryConfig content d) "duration") eqn:Ed;
          destruct Hr as [_ Hr]; try by rewrite <- Hr.
        by destruct (Hnn z). }
      destruct (inv_timers _ I _ _ Ht') as (i & Ei & _).
      assert (is_Some (roots s !! t_owner t)) as Hs by eauto.
      apply (inv_issued _ I) in Hs. lia. }
    split; [done|]. intros acts' s'' Hrun' Hcalm.
    assert (∀ T, safeUntil (key m) T s') as Hsafe.
    { intros T. split.
      - unfold mounted.
        destruct (prop (factoryConfig content d) "duration"); by destruct Hr as [-> _].
      - intros id t Ht Ho. by destruct (Hno _ _ Ht). }
    split.
    + apply (run_safeUntil acts' s' s'' (key m) (now s'' + 1)); try done. lia.
    + intros id t Ht Ho.
      destruct (run_safeUntil acts' s' s'' (key m)
                  (Z.max (now s'' + 1) (t_due t + 1)) I' (Hsafe _) Hrun' Hcalm)
        as [_ Hdue]; [lia|].
      specialize (Hdue _ _ Ht Ho). lia.
Qed.

Lemma timer_armed_iff_number_witness :
  mounted 2
    (after [Create question
              (VObj (<["content" := VStr "stay?"]> {["duration" := VUndef]})) None;
            Elapse 5000; MouseEnter 2; Elapse 5000]) = true.
Proof.
  destruct (timer_armed_iff_number initial question
              (VObj (<["content" := VStr "stay?"]> {["duration" := VUndef]})) None
              {| key := 2 |}
              (after [Create question
                        (VObj (<["content" := VStr "stay?"]> {["duration" := VUndef]}))
                        None]))
    as (_ & _ & H); [by exists plainHost, []|vm_compute; reflexivity|].
  destruct H as [_ H]; [intros z; vm_compute; discriminate|].
  apply (H [Elapse 5000; MouseEnter 2; Elapse 5000]).
  - vm_compute. reflexivity.
  - repeat constructor.
Defined.

(** ** C2: one container *)

Lemma createContainer_existing (cfg : gmap string value) (s : world)
    (c : wrapper) (p : list wrapper) :
  isValidElement (prop cfg "attach") = false → page s = c :: p →
  createContainer cfg s = Some (c, s).
Proof. intros Ha Hp. unfold createContainer. rewrite Ha. simpl. by rewrite Hp. Qed.

Lemma createContainer_page (cfg : gmap string value) (s s0 : world) (c : wrapper) :
  (length (page s) ≤ 1)%nat → createContainer cfg s = Some (c, s0) →
  page s0 = [c] ∧ (page s = [] ∨ page s = [c]).
Proof.
  intros Hl H.
  destruct (createContainer_cases _ _ _ _ H) as [_ [[Hc ->]|(Hp & _ & _ & _ & _ & _ & _ & ->)]].
  - destruct (page s) as [|w [|w' p]]; simpl in *; [done| |lia].
    injection Hc as ->. by eauto.
  - by eauto.
Qed.

Lemma renderElement_page (theme : Theme) (config : gmap string value)
    (s s' : world) (m : MessageInstance) {b : bool} :
  (length (page s) ≤ 1)%nat → renderElement theme config s = Some (Mounted b m s') →
  ∃ c, page s' = [add_kid (key m) c] ∧ (page s = [] ∨ page s = [c]).
Proof.
  intros Hl H. destruct (renderElement_eq _ _ _ _ _ H) as (c & s0 & Ec & -> & ->).
  destruct (createContainer_page _ _ _ _ Hl Ec) as [Hp Hs].
  exists c. split; [|done]. unfold appendChild. simpl.
  assert (∀ x, page x = [c] →
            (λ w, if Nat.eqb (w_id w) (w_id c) then add_kid (keyIndex s + 1) w else w)
              <$> page x = [add_kid (keyIndex s + 1) c]) as Hmap.
  { intros x ->. simpl. by rewrite Nat.eqb_refl. }
  apply Hmap. destruct (String.eqb _ _); [|done].
  destruct (startDuration_frame (keyIndex s + 1)
              (mountAt (keyIndex s + 1) (elementProps theme config) s0))
    as (_ & _ & -> & _). done.
Qed.

(** Against C2 as stated: two factory calls on the same host with the
    placements top and bottom end in one container, the one created for
    top, which holds both messages; the pair of the host and bottom has no
    container of its own. *)
Lemma one_container_for_two_placements :
  page <$> run
    [Create info (VObj (<["content" := VStr "a"]> {["placement" := VStr "top"]})) None;
     Create info (VObj (<["content" := VStr "b"]> {["placement" := VStr "bottom"]})) None]
    initial
  = Some [{| w_id := 0; w_parent := DocumentBody; w_zIndex := VNum 6000;
             w_offsets := Some p_top; w_top := Some 32; w_kids := [2; 3] |}].
Proof. vm_compute. reflexivity. Qed.

(** C2, amended. Container resolution is idempotent per host, not per
    pair of host and placement. The host that a successful call resolves is
    the document body, and the page never holds more than one container:
    once a call has resolved its container, every later resolution returns
    that same container and creates nothing, whatever placement it asks
    for, and two factory calls in a row put their messages in the one
    container. The invariant is one container per host, shared by all
    placements. *)
Theorem one_container_per_host (s : world) :
  reachable s →
  (length (page s) ≤ 1)%nat ∧
  (∀ cfg1 cfg2 c1 s1,
     createContainer cfg1 s = Some (c1, s1) →
     isValidElement (prop cfg2 "attach") = false →
     createContainer cfg2 s1 = Some (c1, s1) ∧ page s1 = [c1]) ∧
  (∀ t1 v1 d1 m1 s1 t2 v2 d2 m2 s2,
     Message_factory t1 v1 d1 s = Some (m1, s1) →
     Message_factory t2 v2 d2 s1 = Some (m2, s2) →
     ∃ w, page s2 = [w] ∧ key m1 ∈ w_kids w ∧ key m2 ∈ w_kids w).
Proof.
  intros Hr. pose proof (Inv_reachable _ Hr) as I.
  pose proof (inv_page _ I) as Hl. split; [done|]. split.
  - intros cfg1 cfg2 c1 s1 H1 Ha.
    destruct (createContainer_page _ _ _ _ Hl H1) as [Hp _].
    split; [|done]. by eapply createContainer_existing.
  - intros t1 v1 d1 m1 s1 t2 v2 d2 m2 s2 H1 H2.
    apply Message_factory_mounted in H1 as [rb1 H1].
    apply Message_factory_mounted in H2 as [rb2 H2].
    destruct (renderElement_page _ _ _ _ _ Hl H1) as (c1 & Hp1 & _).
    assert (length (page s1) ≤ 1)%nat as Hl1 by (by rewrite Hp1).
    destruct (renderElement_page _ _ _ _ _ Hl1 H2) as (c2 & Hp2 & Hc2).
    rewrite Hp1 in Hc2. destruct Hc2 as [?|[= <-]]; [done|].
    eexists. split; [exact Hp2|]. simpl. split.
    + apply elem_of_app. left. apply elem_of_app. right. by apply list_elem_of_singleton.
    + apply elem_of_app. right. by apply list_elem_of_singleton.
Qed.

Lemma one_container_per_host_witness :
  createContainer {["placement" := VStr "bottom"]}
    (after [Create info (VObj (<["content" := VStr "a"]> {["placement" := VStr "top"]})) None])
  = Some ({| w_id := 0; w_parent := DocumentBody; w_zIndex := VNum 6000;
             w_offsets := Some p_top; w_top := Some 32; w_kids := [2] |},
          after [Create info (VObj (<["content" := VStr "a"]> {["placement" := VStr "top"]})) None]).
Proof.
  refine (proj1 (proj1 (proj2 (one_container_per_host
    (after [Create info (VObj (<["content" := VStr "a"]> {["placement" := VStr "top"]})) None])
    _)) {["placement" := VStr "top"]} {["placement" := VStr "bottom"]} _ _ _ _)).
  - exists plainHost, [Create info (VObj (<["content" := VStr "a"]> {["placement" := VStr "top"]})) None].
    vm_compute. reflexivity.
  - vm_compute. reflexivity.
  - vm_compute. reflexivity.
Defined.

(** ** C3: closeAll *)

Lemma increasing_NoDup (l : list MessageInstance) : increasing l → NoDup (key <$> l).
Proof.
  intros Hl. apply NoDup_alt. intros a b x Ha Hb.
  apply list_lookup_fmap_Some in Ha as (ma & -> & Ha).
  apply list_lookup_fmap_Some in Hb as (mb & Hx & Hb).
  destruct (Nat.lt_trichotomy a b) as [Hlt|[->|Hlt]]; [|done|].
  - pose proof (Hl _ _ _ _ Hlt Ha Hb). lia.
  - pose proof (Hl _ _ _ _ Hlt Hb Ha). lia.
Qed.

Lemma sweepEvents_close (m : MessageInstance) (l : list MessageInstance) (s : world) :
  key m ∉ key <$> l → sweepEvents (close m s) l = sweepEvents s l.
Proof.
  intros Hm. unfold sweepEvents. induction l as [|m' l IH]; [done|].
  rewrite !bind_cons. rewrite IH.
  - f_equal. rewrite roots_close. case_decide as Hk; [|done].
    exfalso. apply Hm. rewrite fmap_cons, Hk. by apply elem_of_cons; left.
  - intros H. apply Hm. rewrite fmap_cons. by apply elem_of_cons; right.
Qed.

Lemma trace_sweep (l : list MessageInstance) (s : world) :
  NoDup (key <$> l) → trace (sweep l s) = trace s ++ sweepEvents s l.
Proof.
  revert s. induction l as [|m l IH]; intros s Hnd.
  - simpl. by rewrite app_nil_r.
  - rewrite fmap_cons in Hnd. apply NoDup_cons in Hnd as [Hm Hnd].
    change (sweep (m :: l) s) with (sweep l (close m s)).
    rewrite IH by done. rewrite sweepEvents_close by done.
    rewrite trace_close, trace_unmount, <- app_assoc. f_equal.
Qed.

Lemma mounted_closeAll (k : Z) (s : world) :
  Inv s → mounted k (Message_closeAll s) = false.
Proof.
  intros I. unfold Message_closeAll.
  change (mounted k (sweep (MessageList s) s) = false).
  rewrite mounted_sweep. case_bool_decide as Hin; [done|].
  destruct (mounted k s) eqn:Em; [|done].
  exfalso. by apply Hin, (inv_registry _ I).
Qed.

Lemma closedCount_unmounted (k : Z) (s : world) (p : gmap string value) :
  Inv s → propsOf k s = Some p → mounted k s = false →
  callsOnClosed {| i_props := p; i_timerRef := 0; i_mounted := false |} = true →
  closedCount k (trace s) = 1%nat.
Proof.
  intros I Hp Hm Hc. rewrite (inv_closed _ I). unfold propsOf, mounted in *.
  destruct (roots s !! k) as [i|]; [|done]. simpl in *.
  injection Hp as <-. rewrite Hm. unfold callsOnClosed in *. simpl in Hc.
  by rewrite Hc.
Qed.

(** C3. In every reachable state [closeAll] calls [close] on the handles
    of the registry, in the order of the registry, which is the order of
    creation, and leaves the registry empty. The callbacks it triggers are
    the [onClosed] of the instances still mounted, in that order. After it
    no instance is mounted, and every instance created so far, with a
    callable [onClosed], has had it called exactly once in total, those
    closed before the sweep included. On an empty registry it changes
    nothing. *)
Theorem closeAll_sweeps (s : world) :
  reachable s →
  Message_closeAll s =
    set_MessageList [] (foldl (λ s m, close m s) s (MessageList s)) ∧
  increasing (MessageList s) ∧
  MessageList (Message_closeAll s) = [] ∧
  trace (Message_closeAll s) = trace s ++ sweepEvents s (MessageList s) ∧
  (∀ k, mounted k (Message_closeAll s) = false) ∧
  (∀ k, 2 ≤ k ≤ keyIndex s →
     ∃ i, roots s !! k = Some i ∧
       (callsOnClosed i = true →
        closedCount k (trace (Message_closeAll s)) = 1%nat)) ∧
  (MessageList s = [] → Message_closeAll s = s).
Proof.
  intros Hr. pose proof (Inv_reachable _ Hr) as I.
  split; [done|]. split; [apply I|]. split; [done|]. split; [|split; [|split]].
  - apply (trace_sweep (MessageList s)), increasing_NoDup, I.
  - intros k. by apply mounted_closeAll.
  - intros k Hk. apply (inv_issued _ I) in Hk as [i Ei]. exists i.
    split; [done|]. intros Hc.
    apply (closedCount_unmounted k _ (i_props i)); [by apply Inv_closeAll| |by apply mounted_closeAll|done].
    unfold Message_closeAll.
    change (propsOf k (sweep (MessageList s) s) = Some (i_props i)).
    rewrite propsOf_sweep. unfold propsOf. by rewrite Ei.
  - intros Hl. unfold Message_closeAll. rewrite Hl. simpl.
    apply world_eq; simpl; done.
Qed.

Lemma closeAll_sweeps_witness :
  trace (Message_closeAll
           (after [Create info (VStr "a") None; Create error (VStr "b") (Some 0);
                   Create success (VStr "c") None; Close {| key := 3 |}]))
  = [OnClosed 3; OnClosed 2; OnClosed 4].
Proof.
  assert (reachable
            (after [Create info (VStr "a") None; Create error (VStr "b") (Some 0);
                    Create success (VStr "c") None; Close {| key := 3 |}])) as Hr.
  { exists plainHost, [Create info (VStr "a") None; Create error (VStr "b") (Some 0);
            Create success (VStr "c") None; Close {| key := 3 |}].
    vm_compute. reflexivity. }
  destruct (closeAll_sweeps _ Hr) as (_ & _ & _ & H & _).
  rewrite H. vm_compute. reflexivity.
Defined.

(** ** C4: close is idempotent *)

(** C4. For every handle, calling [close()] twice leaves the module, the
    page and the trace of callbacks exactly as calling it once: the second
    call changes nothing, so it adds no [onClosed] call; [close] is a total
    function, it raises no error. *)
Theorem close_idempotent (m : MessageInstance) (s : world) :
  close m (close m s) = close m s ∧
  trace (close m (close m s)) = trace (close m s) ∧
  closedCount (key m) (trace (close m (close m s))) =
    closedCount (key m) (trace (close m s)) ∧
  (closedCount (key m) (trace (close m s)) ≤ closedCount (key m) (trace s) + 1)%nat.
Proof.
  rewrite close_twice. repeat split.
  rewrite trace_close, trace_unmount, closedCount_app.
  assert (closedCount (key m) [] = 0%nat) as E0 by done.
  destruct (roots s !! key m) as [i|]; [|rewrite E0; lia].
  destruct (_ && _); [|rewrite E0; lia].
  rewrite closedCount_OnClosed. case_decide; lia.
Qed.

(** ** C5: keys *)

Lemma step_keyIndex (s s' : world) (a : action) :
  step s a = Some s' →
  keyIndex s' = keyIndex s + (if isCreate a then 1 else 0).
Proof.
  destruct a as [theme content d|m| |k|k|dt|id]; simpl.
  - destruct (Message_factory _ _ _ _) as [[m s1]|] eqn:E; [simpl|done].
    apply Message_factory_mounted in E as [rb E].
    intros [= <-]. by destruct (renderElement_root _ _ _ _ _ E) as (_ & -> & _).
  - case_bool_decide; [|done]. intros [= <-].
    destruct (close_frame m s) as (_ & -> & _). lia.
  - intros [= <-]. unfold Message_closeAll. simpl.
    fold (sweep (MessageList s) s).
    destruct (sweep_frame (MessageList s) s) as (_ & -> & _). lia.
  - destruct (mounted k s); [|done]. intros [= <-].
    destruct (onMouseEnter_frame k s) as (_ & -> & _). lia.
  - destruct (mounted k s); [|done]. intros [= <-]. unfold onMouseLeave.
    destruct (startDuration_frame k s) as (_ & -> & _). lia.
  - destruct (0 <=? dt); [|done]. intros [= <-]. simpl. lia.
  - intros H. destruct (fire_frame _ _ _ H) as (_ & -> & _). lia.
Qed.

Lemma run_keyIndex (acts : list action) (s s' : world) :
  run acts s = Some s' → keyIndex s' = keyIndex s + creates acts.
Proof.
  revert s. induction acts as [|a acts IH]; intros s; simpl.
  - intros [= <-]. unfold creates. simpl. lia.
  - destruct (step s a) as [s1|] eqn:E; [simpl|done].
    intros H. rewrite (IH _ H), (step_keyIndex _ _ _ E).
    unfold creates. rewrite filter_cons.
    case_decide as Ha; [rewrite Ha; simpl length; lia|].
    destruct (isCreate a); [done|lia].
Qed.

Lemma step_MessageList (s s' : world) (a : action) :
  step s a = Some s' →
  match a with
  | Create _ _ _ => MessageList s' = MessageList s ++ [{| key := keyIndex s + 1 |}]
  | CloseAll => MessageList s' = []
  | Close _ | MouseEnter _ | MouseLeave _ | Elapse _ | Fire _ =>
      MessageList s' = MessageList s
  end.
Proof.
  destruct a as [theme content d|m| |k|k|dt|id]; simpl.
  - destruct (Message_factory _ _ _ _) as [[m s1]|] eqn:E; [simpl|done].
    apply Message_factory_mounted in E as [rb E].
    intros [= <-].
    destruct (renderElement_root _ _ _ _ _ E) as (Hk & _ & -> & _).
    destruct m; simpl in Hk. by subst.
  - case_bool_decide; [|done]. intros [= <-]. apply close_frame.
  - by intros [= <-].
  - destruct (mounted k s); [|done]. intros [= <-]. apply onMouseEnter_frame.
  - destruct (mounted k s); [|done]. intros [= <-]. apply startDuration_frame.
  - destruct (0 <=? dt); [|done]. by intros [= <-].
  - intros H. by destruct (fire_frame _ _ _ H) as (-> & _).
Qed.

(** The runs that keep the rejected calls. *)
Lemma Message_call_rejected (theme : Theme) (content : value) (d : option Z)
    (s s' : world) :
  Message_call theme content d s = Some (Rejected s') →
  ∃ c s0, createContainer (factoryConfig content d) s = Some (c, s0) ∧
    s' = set_keyIndex (keyIndex s + 1) s0.
Proof.
  unfold Message_call, renderElement.
  destruct (createContainer _ s) as [[c s0]|] eqn:Ec; [simpl|done].
  destruct (render _ _ _); [done|]. intros [= <-]. exists c, s0. split; [done|].
  destruct (createContainer_frame _ _ _ _ Ec) as (_ & EK & _). by rewrite EK.
Qed.

Lemma stepAll_step (s s' : world) (a : action) :
  step s a = Some s' → stepAll s a = Some s'.
Proof.
  destruct a as [theme content d|m| |k|k|dt|id]; try done. simpl.
  unfold Message_factory, Message_call_state.
  destruct (Message_call _ _ _ _) as [[b m s1|s1]|]; simpl; try done.
Qed.

Lemma runAll_run (acts : list action) (s s' : world) :
  run acts s = Some s' → runAll acts s = Some s'.
Proof.
  revert s. induction acts as [|a acts IH]; intros s; simpl; [done|].
  destruct (step s a) as [s1|] eqn:E; [simpl|done].
  rewrite (stepAll_step _ _ _ E). simpl. apply IH.
Qed.

Lemma stepAll_cases (s s' : world) (a : action) :
  stepAll s a = Some s' →
  (isCreate a = false ∧ step s a = Some s') ∨
  (∃ theme content d, a = Create theme content d ∧
     ((∃ b m, Message_call theme content d s = Some (Mounted b m s')) ∨
      Message_call theme content d s = Some (Rejected s'))).
Proof.
  destruct a as [theme content d|m| |k|k|dt|id]; try (by left). simpl.
  unfold Message_call_state. intros H. right. exists theme, content, d.
  split; [done|].
  destruct (Message_call _ _ _ _) as [[b m s1|s1]|]; [| |done];
    injection H as <-; by eauto.
Qed.

Lemma stepAll_keyIndex (s s' : world) (a : action) :
  stepAll s a = Some s' →
  keyIndex s' = keyIndex s + (if isCreate a then 1 else 0).
Proof.
  intros H. destruct (stepAll_cases _ _ _ H)
    as [[Ha Hs]|(theme & content & d & -> & [(b & m & E)|E])].
  - by apply step_keyIndex.
  - by destruct (renderElement_root _ _ _ _ _ E) as (_ & -> & _).
  - apply Message_call_rejected in E as (c & s0 & Ec & ->). done.
Qed.

Lemma runAll_keyIndex (acts : list action) (s s' : world) :
  runAll acts s = Some s' → keyIndex s' = keyIndex s + creates acts.
Proof.
  revert s. induction acts as [|a acts IH]; intros s; simpl.
  - intros [= <-]. unfold creates. simpl. lia.
  - destruct (stepAll s a) as [s1|] eqn:E; [simpl|done].
    intros H. rewrite (IH _ H), (stepAll_keyIndex _ _ _ E).
    unfold creates. rewrite filter_cons.
    case_decide as Ha; [rewrite Ha; simpl length; lia|].
    destruct (isCreate a); [done|lia].
Qed.

Lemma step_roots_dom (s s' : world) (a : action) (k : Z) :
  isCreate a = false → step s a = Some s' →
  (is_Some (roots s' !! k) ↔ is_Some (roots s !! k)).
Proof.
  assert (∀ x y, propsOf k x = propsOf k y →
            (is_Some (roots x !! k) ↔ is_Some (roots y !! k))) as Hp.
  { intros x y. unfold propsOf. intros E.
    rewrite <- !(fmap_is_Some i_props). by rewrite E. }
  destruct a as [theme content d|m| |j|j|dt|id]; simpl; try done; intros _.
  - case_bool_decide; [|done]. intros [= <-]. apply Hp, propsOf_close.
  - intros [= <-]. apply Hp. unfold Message_closeAll.
    apply (propsOf_sweep (MessageList s)).
  - destruct (mounted j s); [|done]. intros [= <-].
    by destruct (onMouseEnter_frame j s) as (_ & _ & -> & _).
  - destruct (mounted j s); [|done]. intros [= <-]. apply Hp, propsOf_startDuration.
  - destruct (0 <=? dt); [|done]. by intros [= <-].
  - intros H. apply fire_cases in H as (t & _ & _ & ->).
    apply Hp. by rewrite propsOf_timerCallback.
Qed.

Lemma InvKeys_boot (h : Host) : InvKeys (boot h).
Proof.
  split; simpl; try done.
  - intros k. rewrite lookup_empty. by intros [].
  - intros m H. by apply elem_of_nil in H.
Qed.

Lemma InvKeys_stepAll (s s' : world) (a : action) :
  InvKeys s → stepAll s a = Some s' → InvKeys s'.
Proof.
  intros [X1 X2 X3 X4] H.
  pose proof (stepAll_keyIndex _ _ _ H) as HK.
  destruct (stepAll_cases _ _ _ H)
    as [[Ha Hs]|(theme & content & d & -> & [(b & m & E)|E])].
  - rewrite Ha, Z.add_0_r in HK. pose proof (step_MessageList _ _ _ Hs) as HL.
    assert (MessageList s' = MessageList s ∨ MessageList s' = []) as HL'.
    { destruct a; simpl in Ha; try done; try (by left). by right. }
    split; rewrite ?HK; try done.
    + intros k Hk. apply (step_roots_dom _ _ _ k Ha Hs) in Hk. by apply X2.
    + destruct HL' as [->| ->]; [done|]. intros i j ma mb _ Hi. done.
    + destruct HL' as [->| ->]; [done|]. intros m Hm. by apply elem_of_nil in Hm.
  - simpl in HK. unfold Message_call in E.
    destruct (renderElement_root _ _ _ _ _ E) as (Hm & _ & HL & _ & _ & Hr & _).
    split; rewrite ?HK, ?HL.
    + lia.
    + intros k Hk. destruct (decide (k = key m)) as [->|Hne]; [lia|].
      rewrite Hr in Hk by done. specialize (X2 _ Hk). lia.
    + apply increasing_snoc; [done|]. intros m' Hm'. specialize (X4 _ Hm'). lia.
    + intros m' [Hm'| ->%list_elem_of_singleton]%elem_of_app; [|lia].
      specialize (X4 _ Hm'). lia.
  - simpl in HK. apply Message_call_rejected in E as (c & s0 & Ec & ->).
    destruct (createContainer_frame _ _ _ _ Ec) as (EL & EK & ER & _).
    split; simpl; rewrite ?EL, ?ER.
    + lia.
    + intros k Hk. specialize (X2 _ Hk). lia.
    + done.
    + intros m Hm. specialize (X4 _ Hm). lia.
Qed.

Lemma InvKeys_runAll (acts : list action) (s s' : world) :
  InvKeys s → runAll acts s = Some s' → InvKeys s'.
Proof.
  revert s. induction acts as [|a acts IH]; intros s I; simpl.
  - by intros [= <-].
  - destruct (stepAll s a) as [s1|] eqn:E; [simpl|done].
    apply IH. by eapply InvKeys_stepAll.
Qed.

(** For a call with plain content [createContainer] cannot raise: the
    configuration names no [attach] and no [placement]. *)
Lemma createContainer_plain (content : value) (d : option Z) (s : world) :
  isConfig content = false →
  is_Some (createContainer (factoryConfig content d) s).
Proof.
  intros E. unfold createContainer, factoryConfig. rewrite E.
  unfold prop. rewrite !lookup_insert_ne by done.
  rewrite !lookup_singleton_ne by done. simpl.
  destruct (page s); simpl; by eauto.
Qed.

(** Against C5 as stated: a plain object without [content] is plain
    content for the factory, but no child React accepts. The call takes the
    key 2 and creates the container, [ReactDOM.render] raises, and the
    promise is rejected: no handle comes back, nothing is registered and
    nothing is appended to the container. *)
Lemma unrenderable_content_gives_no_handle :
  isConfig (VObj {["title" := VStr "x"]}) = false ∧
  Message_factory info (VObj {["title" := VStr "x"]}) None initial = None ∧
  Message_call info (VObj {["title" := VStr "x"]}) None initial
  = Some (Rejected
            (set_keyIndex 2
               (set_page [{| w_id := 0; w_parent := DocumentBody;
                             w_zIndex := VNum 6000; w_offsets := Some p_top;
                             w_top := Some 32; w_kids := [] |}]
                  (set_nextElem 1 initial)))).
Proof. repeat split; vm_compute; reflexivity. Qed.

(** C5, amended. After any run from module load, the factory calls
    whose promise was rejected included, for every theme tag, the promise
    of the factory called with plain content that React renders (a valid
    child, on a host that renders the element) resolves to a handle whose
    [close] can be called and whose key is the counter plus one: 2 plus the
    number of earlier factory calls that did not raise, so greater than 1
    and strictly greater than the key of every instance created before and
    of every handle of the registry. *)
Theorem factory_issues_fresh_key (h : Host) (acts : list action) (s : world)
    (theme : Theme) (content : value) (d : option Z) :
  runAll acts (boot h) = Some s →
  isConfig content = false →
  validChild content = true →
  hostRenders (host s) (elementProps theme (factoryConfig content d)) = true →
  ∃ m s', Message_call theme content d s = Some (Mounted true m s') ∧
    Message_factory theme content d s = Some (m, s') ∧
    key m = keyIndex s + 1 ∧ key m = 2 + creates acts ∧ 1 < key m ∧
    (∀ k, is_Some (roots s !! k) → k < key m) ∧
    (∀ m', m' ∈ MessageList s → key m' < key m) ∧
    m ∈ MessageList s' ∧ mounted (key m) s' = true ∧
    step s' (Close m) = Some (close m s').
Proof.
  intros Hrun Hc Hv Hh. pose proof (InvKeys_runAll _ _ _ (InvKeys_boot h) Hrun) as I.
  pose proof (runAll_keyIndex _ _ _ Hrun) as HK. simpl in HK.
  destruct (createContainer_plain content d s Hc) as [[c s0] Ec].
  pose proof (renderElement_settles theme _ _ _ _ Ec) as Hset.
  assert (reactRenders (elementProps theme (factoryConfig content d)) s = true) as Hrr.
  { unfold reactRenders. rewrite elementProps_children, Hh.
    destruct (factoryConfig_plain content d Hc) as [Hcont _].
    unfold prop. rewrite Hcont. simpl. by rewrite Hv. }
  rewrite Hrr in Hset. destruct Hset as (m & s' & E).
  assert (factoryConfig content d !! "ref" = None) as Href.
  { unfold factoryConfig. rewrite Hc. rewrite !lookup_insert_ne by done.
    by rewrite lookup_singleton_ne. }
  rewrite bool_decide_eq_true_2 in E by done.
  exists m, s'. split; [done|].
  split; [apply Message_factory_mounted; by eauto|].
  destruct (renderElement_root _ _ _ _ _ E) as (Hm & _ & HL & _ & _ & _ & Hr).
  assert (is_Some (roots s' !! key m) ∧ mounted (key m) s' = true) as [Hs Hmt].
  { unfold mounted.
    destruct (prop (factoryConfig content d) "duration"); destruct Hr as [-> _]; by eauto. }
  pose proof (ik_keyIndex _ I).
  repeat split; try lia.
  - intros k Hk. apply (ik_roots _ I) in Hk. lia.
  - intros m' Hm'. apply (ik_bound _ I) in Hm'. lia.
  - rewrite HL. apply elem_of_app. right. by apply list_elem_of_singleton.
  - done.
  - simpl. by rewrite bool_decide_eq_true_2.
Qed.

Lemma factory_issues_fresh_key_witness :
  ∃ m s', Message_factory warning (VStr "careful") None
            (afterAll [Create info (VStr "a") None;
                       Create info (VObj {["title" := VStr "x"]}) None; CloseAll])
          = Some (m, s') ∧
    key m = 4.
Proof.
  destruct (factory_issues_fresh_key plainHost
              [Create info (VStr "a") None;
               Create info (VObj {["title" := VStr "x"]}) None; CloseAll]
              (afterAll [Create info (VStr "a") None;
                         Create info (VObj {["title" := VStr "x"]}) None; CloseAll])
              warning (VStr "careful") None)
    as (m & s' & _ & H & _ & Hk & _);
    [vm_compute; reflexivity|reflexivity|reflexivity|reflexivity|].
  exists m, s'. split; [exact H|]. rewrite Hk. reflexivity.
Defined.

(** ** C6: who changes the registry *)

(** Against C6 as stated: after a message is created and its handle is
    closed, the handle is still in the registry. *)
Lemma close_keeps_handle_registered :
  MessageList <$> run [Create info (VStr "saved") None; Close {| key := 2 |}] initial
  = Some [{| key := 2 |}].
Proof. vm_compute. reflexivity. Qed.

(** C6, amended. The registry is changed by instance creation, which
    appends the new handle, and by [closeAll], which empties it, and by
    nothing else: a [close] on a handle, a timer that fires, pointer events
    and the passing of time leave it as it is, so a handle closed on its own
    stays in the registry until the next [closeAll]. *)
Theorem registry_changes (s s' : world) (a : action) :
  step s a = Some s' →
  match a with
  | Create _ _ _ => MessageList s' = MessageList s ++ [{| key := keyIndex s + 1 |}]
  | CloseAll => MessageList s' = []
  | Close _ | MouseEnter _ | MouseLeave _ | Elapse _ | Fire _ =>
      MessageList s' = MessageList s
  end.
Proof.
  destruct a as [theme content d|m| |k|k|dt|id]; simpl.
  - destruct (Message_factory _ _ _ _) as [[m s1]|] eqn:E; [simpl|done].
    apply Message_factory_mounted in E as [rb E].
    intros [= <-].
    destruct (renderElement_root _ _ _ _ _ E) as (Hk & _ & -> & _).
    destruct m; simpl in Hk. by subst.
  - case_bool_decide; [|done]. intros [= <-]. apply close_frame.
  - by intros [= <-].
  - destruct (mounted k s); [|done]. intros [= <-]. apply onMouseEnter_frame.
  - destruct (mounted k s); [|done]. intros [= <-]. apply startDuration_frame.
  - destruct (0 <=? dt); [|done]. by intros [= <-].
  - intros H. by destruct (fire_frame _ _ _ H) as (-> & _).
Qed.

Lemma registry_changes_witness :
  MessageList (close {| key := 2 |} (after [Create info (VStr "saved") None]))
  = MessageList (after [Create info (VStr "saved") None]).
Proof.
  apply (registry_changes _ _ (Close {| key := 2 |})).
  vm_compute. reflexivity.
Defined.

(** ** C7: hovering restarts the full duration *)

Lemma run_snoc (acts : list action) (a : action) (s s' : world) :
  run (acts ++ [a]) s = Some s' →
  ∃ s1, run acts s = Some s1 ∧ step s1 a = Some s'.
Proof.
  rewrite run_app. destruct (run acts s) as [s1|]; [simpl|done].
  destruct (step s1 a) as [s2|] eqn:E; [simpl|done].
  intros [= <-]. by eauto.
Qed.

(** Against C7 as stated: a duration past 2^31 - 1 is not the delay
    [setTimeout] uses. With a duration of 3000000000, when the pointer
    enters the message as it appears and leaves it at time 1000, the timer
    that the leave arms is due at time 1000, not 3000000000 later, and the
    message is closed when it fires there. *)
Lemma duration_past_int32_restarts_at_once :
  timers <$> run [Create info (VStr "x") (Some 3000000000);
                  MouseEnter 2; Elapse 1000; MouseLeave 2] initial
    = Some {[ 2 := {| t_due := 1000; t_owner := 2; t_onDurationEnd := noop |} ]} ∧
  mounted 2 <$> run [Create info (VStr "x") (Some 3000000000);
                     MouseEnter 2; Elapse 1000; MouseLeave 2; Fire 2] initial
    = Some false.
Proof. split; vm_compute; reflexivity. Qed.

(** C7, amended. Take a message created with a duration [D] with
    [0 < D ≤ 2^31 - 1], the delays [setTimeout] keeps, and any run in
    which the pointer later enters it and then leaves it. The enter clears
    its pending timer: none of the timers left belongs to it. The leave arms
    one timer for it, due the full [D] after the moment of the leave. Until
    then the message stays mounted, whatever else happens short of closing
    it by hand; so when the leave comes later than the creation, the message
    is still there at the original mark, [D] after its creation. *)
Theorem hover_restarts_duration (s : world)
    (theme : Theme) (content : value) (d : option Z)
    (m : MessageInstance) (s1 : world) (D : Z)
    (acts1 acts2 : list action) (sD : world) :
  reachable s →
  Message_factory theme content d s = Some (m, s1) →
  prop (factoryConfig content d) "duration" = VNum D →
  0 < D → D ≤ 2 ^ 31 - 1 →
  run (acts1 ++ MouseEnter (key m) :: acts2 ++ [MouseLeave (key m)]) s1 = Some sD →
  (∀ sA, run acts1 s1 = Some sA →
     ∀ id t, timers (onMouseEnter (key m) sA) !! id = Some t → t_owner t ≠ key m) ∧
  (∃ id t, timers sD !! id = Some t ∧ t_owner t = key m ∧ t_due t = now sD + D) ∧
  (∀ id t, timers sD !! id = Some t → t_owner t = key m → t_due t = now sD + D) ∧
  (∀ acts3 sE, run acts3 sD = Some sE → calm (key m) acts3 →
     now sE < now sD + D → mounted (key m) sE = true) ∧
  (now s1 < now sD →
     ∀ acts3 sE, run acts3 sD = Some sE → calm (key m) acts3 →
       now sE ≤ now s1 + D → mounted (key m) sE = true).
Proof.
  intros Hreach Hf Hd HD HD' Hrun. pose proof (Inv_reachable _ Hreach) as I.
  assert (Inv s1) as I1.
  { apply (Inv_step s s1 (Create theme content d) I). simpl. by rewrite Hf. }
  apply Message_factory_mounted in Hf as [rb Hf].
  destruct (renderElement_root _ _ _ _ _ Hf) as (_ & _ & _ & _ & _ & _ & Hr).
  rewrite Hd in Hr. destruct Hr as [Hr _].
  set (k := key m) in *.
  assert (propsOf k s1 = Some (elementProps theme (factoryConfig content d))) as Hp1.
  { unfold propsOf. by rewrite Hr. }
  change (MouseEnter k :: acts2 ++ [MouseLeave k])
    with ((MouseEnter k :: acts2) ++ [MouseLeave k]) in Hrun.
  rewrite app_assoc in Hrun.
  apply run_snoc in Hrun as (sC & HrunC & HstepD).
  pose proof (Inv_run _ _ _ I1 HrunC) as IC.
  assert (propsOf k sC = Some (elementProps theme (factoryConfig content d))) as HpC.
  { rewrite <- Hp1. apply (propsOf_run _ _ _ _ I1 HrunC). by eauto. }
  simpl in HstepD. destruct (mounted k sC) eqn:EmC; [|done]. injection HstepD as <-.
  unfold propsOf in HpC. destruct (roots sC !! k) as [iC|] eqn:EiC; [|done].
  injection HpC as HpC.
  assert (timerDelay (host sC) (prop (i_props iC) "duration") = D) as Hdelay.
  { rewrite HpC, elementProps_duration, Hd. apply timerDelay_small. lia. }
  assert (now (onMouseLeave k sC) = now sC) as Hnow.
  { unfold onMouseLeave. by destruct (startDuration_frame k sC) as (_ & _ & _ & -> & _). }
  assert (∀ id t, timers (onMouseLeave k sC) !! id = Some t → t_owner t = k →
            t_due t = now (onMouseLeave k sC) + D) as Hall.
  { intros id t Ht Ho. rewrite Hnow. unfold onMouseLeave in Ht.
    apply (timers_startDuration _ _ iC) in Ht as [(_ & _ & ->)|[Hne Ht]]; [| |done].
    - by rewrite Hdelay.
    - destruct (inv_timers _ IC _ _ Ht) as (i' & Ei' & _ & Er). congruence. }
  assert (safeUntil k (now (onMouseLeave k sC) + D) (onMouseLeave k sC)) as Hsafe.
  { split.
    - unfold onMouseLeave. by rewrite mounted_startDuration.
    - intros id t Ht Ho. rewrite (Hall _ _ Ht Ho). lia. }
  assert (Inv (onMouseLeave k sC)) as ID by (by apply Inv_onMouseLeave).
  split; [|split; [|split; [|split]]].
  - intros sA HrunA id t Ht.
    apply timers_onMouseEnter in Ht as [_ Ht]; [done|].
    exact (Inv_run _ _ _ I1 HrunA).
  - exists (nextTimer sC). eexists. unfold onMouseLeave at 1.
    rewrite (startDuration_Some _ _ _ EiC). simpl. rewrite lookup_insert_eq.
    split; [done|]. simpl. split; [done|]. by rewrite Hdelay, Hnow.
  - done.
  - intros acts3 sE HrunE Hcalm Ht.
    by apply (run_safeUntil acts3 _ sE k _ ID Hsafe HrunE Hcalm).
  - intros Hlater acts3 sE HrunE Hcalm Ht.
    apply (run_safeUntil acts3 _ sE k _ ID Hsafe HrunE Hcalm). lia.
Qed.

Lemma hover_restarts_duration_witness :
  mounted 2
    (after [Create info (VStr "hello") (Some 1000); Elapse 400; MouseEnter 2;
            Elapse 300; MouseLeave 2; Elapse 300]) = true.
Proof.
  destruct (hover_restarts_duration initial info (VStr "hello") (Some 1000)
              {| key := 2 |}
              (after [Create info (VStr "hello") (Some 1000)]) 1000
              [Elapse 400] [Elapse 300]
              (after [Create info (VStr "hello") (Some 1000); Elapse 400;
                      MouseEnter 2; Elapse 300; MouseLeave 2]))
    as (_ & _ & _ & _ & H);
    [by exists plainHost, []|vm_compute; reflexivity|vm_compute; reflexivity|lia|lia
    |vm_compute; reflexivity|].
  apply (H ltac:(vm_compute; reflexivity) [Elapse 300]).
  - vm_compute. reflexivity.
  - repeat constructor.
  - vm_compute. discriminate.
Defined.

(** ** C8: the timer callback, and [onClosed] once *)

(** Against C8 as stated: with [onDurationEnd: null] the timer fires,
    the call [onDurationEnd({ close })] raises before [close()] is reached,
    and nothing of what C8 promises happens: no [onDurationEnd] call, no
    close, no [onClosed]. The message stays mounted with no timer left.
    Line 167 guards [onClosed] with a [typeof] test; line 156 has no such
    guard, and the default of line 145 covers undefined only. *)
Lemma null_onDurationEnd_timer_does_not_close :
  (λ s, (trace s, mounted 2 s, timers s)) <$>
    run [Create info
           (VObj (<["content" := VStr "a"]> {["onDurationEnd" := VNull]}))
           (Some 100);
         Elapse 100; Fire 1] initial
  = Some ([], true, ∅).
Proof. vm_compute. reflexivity. Qed.

(** C8, amended. In every reachable state: a timer that fires with a
    callable [onDurationEnd] (a function, or left out) calls it first,
    handing it the [close] of its own message, and closes the message after
    it, so the trace grows by the [onDurationEnd] call followed by the
    [onClosed] call; an instance with a callable [onClosed] has had it
    called never while mounted and exactly once when closed; and whichever
    way it is closed, by its timer with a callable [onDurationEnd], by its
    handle or by [closeAll], the count is exactly one afterwards. *)
Theorem onClosed_exactly_once (s : world) :
  reachable s →
  (∀ id t s',
     timers s !! id = Some t → fire id s = Some s' →
     typeof (t_onDurationEnd t) = "function" →
     ∃ i, roots s !! t_owner t = Some i ∧ i_mounted i = true ∧
       trace s' =
         trace s ++
         OnDurationEnd (t_owner t) {| key := t_owner t |}
         :: (if callsOnClosed i then [OnClosed (t_owner t)] else []) ∧
       mounted (t_owner t) s' = false) ∧
  (∀ k i, roots s !! k = Some i → callsOnClosed i = true →
     closedCount k (trace s) = if i_mounted i then 0%nat else 1%nat) ∧
  (∀ a s' k i,
     step s a = Some s' → closes s a k →
     roots s !! k = Some i → callsOnClosed i = true →
     mounted k s' = false ∧ closedCount k (trace s') = 1%nat).
Proof.
  intros Hr. pose proof (Inv_reachable _ Hr) as I. split; [|split].
  - intros id t s' Ht Hf Hfun. unfold fire in Hf. rewrite Ht in Hf. simpl in Hf.
    destruct (t_due t <=? now s); [|done]. injection Hf as <-.
    destruct (inv_timers _ I _ _ Ht) as (i & Ei & Em & _).
    exists i. split; [done|]. split; [done|].
    rewrite (timerCallback_function _ _ Hfun). split.
    + rewrite trace_close, trace_unmount. simpl. rewrite Ei, Em. simpl.
      rewrite <- app_assoc. simpl. unfold callsOnClosed. by destruct (String.eqb _ _).
    + rewrite mounted_close. simpl. by case_decide.
  - intros k i Ei Hc. rewrite (inv_closed _ I), Ei, Hc. done.
  - intros a s' k i Hs Hcl Ei Hc.
    assert (mounted k s' = false) as Hm.
    { destruct a as [theme content d|m| |j|j|dt|id]; simpl in Hs, Hcl; try done.
      - case_bool_decide; [|done]. injection Hs as <-.
        rewrite mounted_close. by case_decide.
      - injection Hs as <-. by apply mounted_closeAll.
      - destruct Hcl as (t & Ht & <- & Hfun). unfold fire in Hs.
        rewrite Ht in Hs. simpl in Hs.
        destruct (t_due t <=? now s); [|done]. injection Hs as <-.
        rewrite (timerCallback_function _ _ Hfun), mounted_close. simpl.
        by case_decide. }
    split; [done|].
    apply (closedCount_unmounted k s' (i_props i)); [by eapply Inv_step| |done|done].
    rewrite (propsOf_step _ _ _ _ I Hs) by eauto. unfold propsOf. by rewrite Ei.
Qed.

Lemma onClosed_exactly_once_witness :
  trace <$> fire 1 (after [Create loading (VStr "wait") (Some 200); Elapse 200])
  = Some [OnDurationEnd 2 {| key := 2 |}; OnClosed 2].
Proof.
  assert (reachable (after [Create loading (VStr "wait") (Some 200); Elapse 200])) as Hr.
  { exists plainHost, [Create loading (VStr "wait") (Some 200); Elapse 200].
    vm_compute. reflexivity. }
  destruct (onClosed_exactly_once _ Hr) as (H & _).
  destruct (fire 1 (after [Create loading (VStr "wait") (Some 200); Elapse 200]))
    as [s'|] eqn:E; [|vm_compute in E; discriminate E].
  destruct (H 1 {| t_due := 200; t_owner := 2; t_onDurationEnd := VFun Quiet |} s')
    as (i & Ei & _ & Ht & _); [vm_compute; reflexivity|exact E|reflexivity|].
  simpl. rewrite Ht. vm_compute in Ei. injection Ei as <-.
  vm_compute. reflexivity.
Defined.

(** ** C9: the attach target *)

Lemma createContainer_element (cfg : gmap string value) (s : world) (e : nat) :
  prop cfg "attach" = VElement e → createContainer cfg s = None.
Proof. intros Ha. unfold createContainer. by rewrite Ha. Qed.

(** C9 fails on the code. Whatever [attach] is, a container that
    [createContainer] creates is a child of [document.body]: a DOM node
    given as [attach] does not pass [React.isValidElement], so the
    container is not placed inside it. A React element given as [attach]
    passes the test, replaces [document.body], and the call raises a
    TypeError instead of falling back. *)
Theorem createContainer_ignores_attach (cfg : gmap string value) (s : world) (n : nat) :
  prop cfg "attach" = VNode n →
  is_Some (PlacementOffset (defaulted (prop cfg "placement") (VStr Top))) →
  page s = [] →
  ∃ c s0, createContainer cfg s = Some (c, s0) ∧
    w_parent c = DocumentBody ∧ w_parent c ≠ AttachValue (VNode n) ∧
    page s0 = [c] ∧
    ∀ e, createContainer (<["attach" := VElement e]> cfg) s = None.
Proof.
  intros Ha [p Hp] Hs.
  assert (∀ e, createContainer (<["attach" := VElement e]> cfg) s = None) as He.
  { intros e. apply createContainer_element with e.
    unfold prop. by rewrite lookup_insert_eq. }
  unfold createContainer at 1. rewrite Ha. simpl. rewrite Hs. simpl.
  rewrite Hp. simpl.
  eexists _, _. split; [reflexivity|]. simpl. repeat split; done.
Qed.

Lemma createContainer_ignores_attach_witness :
  ∃ c s0, createContainer {["attach" := VNode 7]} initial = Some (c, s0) ∧
    w_parent c = DocumentBody ∧ w_parent c ≠ AttachValue (VNode 7) ∧
    page s0 = [c] ∧
    ∀ e, createContainer (<["attach" := VElement e]> {["attach" := VNode 7]}) initial
         = None.
Proof.
  apply (createContainer_ignores_attach {["attach" := VNode 7]} initial 7);
    [reflexivity|by eexists|reflexivity].
Defined.

(** ** C10: content or configuration *)

(** C10. The argument of a factory is taken as a configuration exactly
    when it is a plain object whose [content] field is truthy. Any other
    argument, an object without truthy [content] included, becomes the
    content as it is, with the duration of the call (3000 when left out).
    For a configuration, a [duration] field of the object wins over the
    duration of the call, which is used only when the object has no such
    field. The instance the factory creates gets that content and that
    duration. *)
Theorem factory_argument (theme : Theme) (v : value) (d : option Z) :
  (isConfig v = true ↔
     ∃ o c, v = VObj o ∧ o !! "content" = Some c ∧ truthy c = true) ∧
  (isConfig v = false →
     factoryConfig v d !! "content" = Some v ∧
     factoryConfig v d !! "duration" = Some (VNum (default globalConfig.duration d))) ∧
  (isConfig v = true →
     factoryConfig v d !! "content" = fields v !! "content" ∧
     factoryConfig v d !! "duration" =
       match fields v !! "duration" with
       | Some x => Some x
       | None => Some (VNum (default globalConfig.duration d))
       end) ∧
  (∀ s m s', Message_factory theme v d s = Some (m, s') →
     ∃ i, roots s' !! key m = Some i ∧
       prop (i_props i) "children" = prop (factoryConfig v d) "content" ∧
       prop (i_props i) "duration" = prop (factoryConfig v d) "duration").
Proof.
  split; [apply isConfig_spec|]. split; [|split].
  - apply factoryConfig_plain.
  - apply factoryConfig_object.
  - intros s m s' H. apply Message_factory_mounted in H as [rb H].
    destruct (renderElement_root _ _ _ _ _ H) as (_ & _ & _ & _ & _ & _ & Hr).
    destruct (prop (factoryConfig v d) "duration") eqn:Ed;
      destruct Hr as [Hr _]; eexists; (split; [exact Hr|]); simpl;
      by rewrite elementProps_children, elementProps_duration.
Qed.

Lemma factory_argument_witness :
  factoryConfig (VObj {["title" := VStr "no content"]}) (Some 500) !! "content"
    = Some (VObj {["title" := VStr "no content"]}) ∧
  factoryConfig (VObj (<["content" := VStr "hi"]> {["duration" := VNum 0]}))
    (Some 500) !! "duration" = Some (VNum 0).
Proof.
  split.
  - destruct (factory_argument info (VObj {["title" := VStr "no content"]}) (Some 500))
      as (_ & H & _).
    apply H. vm_compute. reflexivity.
  - destruct (factory_argument info
                (VObj (<["content" := VStr "hi"]> {["duration" := VNum 0]})) (Some 500))
      as (_ & _ & H & _).
    destruct H as [_ H]; [vm_compute; reflexivity|].
    rewrite H. vm_compute. reflexivity.
Defined.


(** * Further properties of the module *)

(** ** More facts about the operations *)

Lemma renderElement_nextTimer (theme : Theme) (config : gmap string value)
    (s s' : world) (m : MessageInstance) {b : bool} :
  renderElement theme config s = Some (Mounted b m s') →
  nextTimer s ≤ nextTimer s' ≤ nextTimer s + 1.
Proof.
  intros H. destruct (renderElement_eq _ _ _ _ _ H) as (c & s0 & Ec & -> & ->).
  destruct (createContainer_frame _ _ _ _ Ec) as (_ & _ & _ & _ & EN & _).
  simpl key.
  destruct (startDuration_mountAt (keyIndex s + 1) (elementProps theme config) s0)
    as (s1 & E1 & _ & _ & _ & _ & _ & N1 & _).
  rewrite E1. destruct (String.eqb _ _); simpl; rewrite ?N1, ?EN; lia.
Qed.

(** ** Timer ids *)

Lemma InvT_boot (h : Host) : InvT (boot h).
Proof.
  split; simpl; done.
Qed.

(** Fewer timers, the same remembered ids. *)
Lemma InvT_shrink (s s' : world) :
  InvT s → nextTimer s' = nextTimer s →
  (∀ id t, timers s' !! id = Some t → timers s !! id = Some t) →
  (∀ k i', roots s' !! k = Some i' →
     ∃ i, roots s !! k = Some i ∧ i_timerRef i = i_timerRef i') →
  InvT s'.
Proof.
  intros [T1 T2 T3 T4] HN HT HR. split; rewrite ?HN; try done.
  - intros id t Ht. by apply (T2 id t), HT.
  - intros k i' Hi'. destruct (HR _ _ Hi') as (i & Hi & <-). by apply (T3 k).
  - intros k i' t Hi' Ht. destruct (HR _ _ Hi') as (i & Hi & Hr).
    rewrite <- Hr in Ht. by apply (T4 k i t), HT.
Qed.

Lemma InvT_close (m : MessageInstance) (s : world) : InvT s → InvT (close m s).
Proof.
  intros I. apply (InvT_shrink s); [done|apply close_frame| |].
  - apply timers_close_sub.
  - intros k i'. rewrite roots_close. case_decide; [|by eauto].
    destruct (roots s !! k) as [i|]; [|done]. intros [= <-]. by eauto.
Qed.

Lemma InvT_sweep (l : list MessageInstance) (s : world) : InvT s → InvT (sweep l s).
Proof.
  revert s. induction l as [|m l IH]; intros s I; [done|].
  apply (IH (close m s)). by apply InvT_close.
Qed.

Lemma InvT_startDuration (k : Z) (s : world) : InvT s → InvT (startDuration k s).
Proof.
  intros [T1 T2 T3 T4]. unfold startDuration.
  destruct (roots s !! k) as [i|] eqn:E; [simpl|done].
  split; simpl.
  - lia.
  - intros id t. rewrite lookup_insert. case_decide; [intros _; lia|].
    rewrite lookup_delete. case_decide; [done|]. intros Ht.
    specialize (T2 _ _ Ht). lia.
  - intros j ij. rewrite lookup_insert. case_decide.
    + intros [= <-]. simpl. lia.
    + intros Hj. specialize (T3 _ _ Hj). lia.
  - intros j ij t. rewrite lookup_insert. case_decide as Hj.
    + intros [= <-]. simpl. rewrite lookup_insert_eq. by intros [= <-].
    + intros Eij. specialize (T3 _ _ Eij).
      rewrite lookup_insert_ne by lia.
      rewrite lookup_delete. case_decide; [done|]. by apply T4.
Qed.

Lemma InvT_renderElement (theme : Theme) (config : gmap string value)
    (s s' : world) (m : MessageInstance) {b : bool} :
  InvT s → renderElement theme config s = Some (Mounted b m s') → InvT s'.
Proof.
  intros I H. destruct (renderElement_eq _ _ _ _ _ H) as (c & s0 & Ec & -> & ->).
  destruct (createContainer_frame _ _ _ _ Ec) as (_ & _ & ER & ET & EN & _).
  simpl key.
  assert (InvT (mountAt (keyIndex s + 1) (elementProps theme config) s0)) as IM.
  { destruct I as [T1 T2 T3 T4]. split; simpl; rewrite ?ER, ?ET, ?EN; try done.
    - intros j ij. rewrite lookup_insert. case_decide; [|apply T3].
      intros [= <-]. simpl. lia.
    - intros j ij t. rewrite lookup_insert. case_decide; [|apply T4].
      intros [= <-]. simpl. intros Ht. specialize (T2 _ _ Ht). lia. }
  assert (∀ x, InvT x → InvT (appendChild c (keyIndex s + 1) x)) as HA.
  { intros x Ix. by apply (InvT_shrink x); [done|done|done|eauto]. }
  apply HA. destruct (String.eqb _ _); [|done]. by apply InvT_startDuration.
Qed.

Lemma InvT_step (s s' : world) (a : action) : InvT s → step s a = Some s' → InvT s'.
Proof.
  intros I. destruct a as [theme content d|m| |k|k|dt|id]; simpl.
  - destruct (Message_factory _ _ _ _) as [[m s1]|] eqn:E; [simpl|done].
    apply Message_factory_mounted in E as [rb E].
    intros [= <-]. by eapply InvT_renderElement.
  - case_bool_decide; [|done]. intros [= <-]. by apply InvT_close.
  - intros [= <-]. unfold Message_closeAll.
    apply (InvT_shrink (sweep (MessageList s) s)); [by apply InvT_sweep|done|done|eauto].
  - destruct (mounted k s); [|done]. intros [= <-]. unfold onMouseEnter.
    destruct (roots s !! k) as [i|]; [|done].
    apply (InvT_shrink s); [done|done| |by eauto].
    intros id t. simpl. rewrite lookup_delete. by case_decide.
  - destruct (mounted k s); [|done]. intros [= <-]. by apply InvT_startDuration.
  - destruct (0 <=? dt); [|done]. intros [= <-].
    by apply (InvT_shrink s); [done|done|done|eauto].
  - intros H. apply fire_cases in H as (t & Ht & _ & ->).
    assert (InvT (set_timers (delete id (timers s)) s)) as I0.
    { apply (InvT_shrink s); [done|done| |by eauto].
      intros id' t'. simpl. rewrite lookup_delete. by case_decide. }
    destruct (timerCallback_cases t (set_timers (delete id (timers s)) s))
      as [[_ ->]|[_ ->]]; [|done].
    apply InvT_close. by apply (InvT_shrink (set_timers (delete id (timers s)) s));
      [done|done|done|eauto].
Qed.

Lemma InvT_run (acts : list action) (s s' : world) :
  InvT s → run acts s = Some s' → InvT s'.
Proof.
  revert s. induction acts as [|a acts IH]; intros s I; simpl.
  - by intros [= <-].
  - destruct (step s a) as [s1|] eqn:E; [simpl|done].
    apply IH. by eapply InvT_step.
Qed.

Lemma InvT_reachable (s : world) : reachable s → InvT s.
Proof. intros (h & acts & H). eapply InvT_run; [apply InvT_boot|done]. Qed.

(** ** The children of the container *)

Lemma page_unmount (k : Z) (s : world) : page (unmountComponentAtNode k s) = page s.
Proof.
  unfold unmountComponentAtNode, cleanup, clearTimeout.
  destruct (roots s !! k) as [i|]; [|done].
  destruct (i_mounted i); [|done]. by destruct (String.eqb _ _).
Qed.

Lemma page_close (m : MessageInstance) (s : world) :
  page (close m s) = drop_kid (key m) <$> page s.
Proof. unfold close, remove. simpl. by rewrite page_unmount. Qed.

Lemma page_timerCallback (t : timer) (s : world) :
  page (timerCallback t s) = page s ∨
  page (timerCallback t s) = drop_kid (t_owner t) <$> page s.
Proof.
  destruct (timerCallback_cases t s) as [[_ ->]|[_ ->]]; [|by left].
  right. by rewrite page_close.
Qed.

Lemma mounted_renderElement (theme : Theme) (config : gmap string value)
    (s s' : world) (m : MessageInstance) {b : bool} (j : Z) :
  renderElement theme config s = Some (Mounted b m s') →
  mounted j s' = if decide (j = key m) then true else mounted j s.
Proof.
  intros H. destruct (renderElement_root _ _ _ _ _ H) as (_ & _ & _ & _ & _ & Hr & Hk).
  unfold mounted. case_decide as Hj.
  - subst j. destruct (prop config "duration"); by destruct Hk as [-> _].
  - by rewrite Hr.
Qed.

Lemma renderElement_kids (theme : Theme) (config : gmap string value)
    (s s' : world) (m : MessageInstance) {b : bool} :
  (length (page s) ≤ 1)%nat → renderElement theme config s = Some (Mounted b m s') →
  ∃ c, page s' = [add_kid (key m) c] ∧
       ((page s = [] ∧ w_kids c = []) ∨ page s = [c]).
Proof.
  intros Hl H. destruct (renderElement_eq _ _ _ _ _ H) as (c & s0 & Ec & -> & ->).
  destruct (createContainer_page _ _ _ _ Hl Ec) as [Hp Hs].
  exists c. split.
  - unfold appendChild. simpl.
    assert (∀ x, page x = [c] →
              (λ w, if Nat.eqb (w_id w) (w_id c) then add_kid (keyIndex s + 1) w else w)
                <$> page x = [add_kid (keyIndex s + 1) c]) as Hmap.
    { intros x ->. simpl. by rewrite Nat.eqb_refl. }
    apply Hmap. destruct (String.eqb _ _); [|done].
    destruct (startDuration_frame (keyIndex s + 1)
                (mountAt (keyIndex s + 1) (elementProps theme config) s0))
      as (_ & _ & -> & _). done.
  - destruct (createContainer_cases _ _ _ _ Ec)
      as [_ [[Hc _]|(Hp0 & _ & _ & _ & Hk & _)]].
    + right. destruct Hs as [Hs|Hs]; [by rewrite Hs in Hc|done].
    + left. done.
Qed.

Lemma StronglySorted_filter_lt (P : Z → Prop) `{!∀ x, Decision (P x)} (l : list Z) :
  StronglySorted Z.lt l → StronglySorted Z.lt (filter P l).
Proof.
  induction l as [|x l IH]; [done|].
  rewrite StronglySorted_cons. intros [Hx Hl]. rewrite filter_cons.
  case_decide; [|by apply IH].
  apply StronglySorted_cons. split; [|by apply IH].
  apply Forall_forall. intros y [_ Hy]%list_elem_of_filter.
  by eapply Forall_forall in Hx.
Qed.

Lemma InvK_boot (h : Host) : InvK (boot h).
Proof. split; simpl; [done|]. intros w H. by apply elem_of_nil in H. Qed.

Lemma InvK_frame (s s' : world) :
  page s' = page s → (∀ k, mounted k s' = mounted k s) →
  keyIndex s' = keyIndex s → InvK s → InvK s'.
Proof.
  intros HP HM HK [K1 K2]. split; rewrite ?HP, ?HK; [done|].
  intros w Hw. destruct (K2 w Hw) as [Hk Hs]. split; [|done].
  intros k. by rewrite HM.
Qed.

Lemma InvK_close (m : MessageInstance) (s : world) : InvK s → InvK (close m s).
Proof.
  intros [K1 K2]. destruct (close_frame m s) as (_ & EK & _).
  split; rewrite page_close, ?EK.
  - intros H. apply fmap_nil_inv in H. by apply K1.
  - intros w' (w & -> & Hw)%list_elem_of_fmap. destruct (K2 w Hw) as [Hk Hs].
    simpl. split; [|by apply StronglySorted_filter_lt].
    intros k. rewrite list_elem_of_filter, Hk, mounted_close.
    case_decide as Hd.
    + split; [intros [? _]; congruence|done].
    + split; [by intros [_ ?]|intros ?; split; [congruence|done]].
Qed.

Lemma InvK_sweep (l : list MessageInstance) (s : world) : InvK s → InvK (sweep l s).
Proof.
  revert s. induction l as [|m l IH]; intros s I; [done|].
  apply (IH (close m s)). by apply InvK_close.
Qed.

Lemma InvK_renderElement (theme : Theme) (config : gmap string value)
    (s s' : world) (m : MessageInstance) {b : bool} :
  Inv s → InvK s → renderElement theme config s = Some (Mounted b m s') → InvK s'.
Proof.
  intros I [K1 K2] H.
  destruct (renderElement_kids _ _ _ _ _ (inv_page _ I) H) as (c & Hp & Hc).
  destruct (renderElement_root _ _ _ _ _ H) as (Hm & _).
  assert (∀ j, mounted j s = true → j < key m) as Hlt.
  { intros j Hj. unfold mounted in Hj.
    destruct (roots s !! j) as [i|] eqn:E; [|done].
    assert (is_Some (roots s !! j)) as Hs by eauto.
    apply (inv_issued _ I) in Hs. lia. }
  assert ((∀ k, k ∈ w_kids c ↔ mounted k s = true) ∧ StronglySorted Z.lt (w_kids c))
    as [Hk Hs].
  { destruct Hc as [[Hp0 Hk0]|Hp0].
    - rewrite Hk0. split; [|constructor]. intros k. split; [by intros ?%elem_of_nil|].
      intros Hmk. unfold mounted in Hmk.
      destruct (roots s !! k) as [i|] eqn:E; [|done].
      assert (is_Some (roots s !! k)) as Hsk by eauto.
      apply (inv_issued _ I) in Hsk. specialize (K1 Hp0). lia.
    - apply K2. rewrite Hp0. by apply list_elem_of_singleton. }
  split; rewrite Hp; [done|].
  intros w ->%list_elem_of_singleton. simpl. split.
  - intros k. rewrite elem_of_app, list_elem_of_singleton, Hk,
      (mounted_renderElement _ _ _ _ _ k H).
    case_decide as Hd.
    + split; [done|]. intros _. by right.
    + split; [by intros [?|?]|intros ?; by left].
  - apply StronglySorted_app. split; [|split; [done|repeat constructor]].
    intros x1 x2 Hx1 ->%list_elem_of_singleton. apply Hlt. by apply Hk.
Qed.

Lemma InvK_step (s s' : world) (a : action) :
  Inv s → InvK s → step s a = Some s' → InvK s'.
Proof.
  intros I K. destruct a as [theme content d|m| |k|k|dt|id]; simpl.
  - destruct (Message_factory _ _ _ _) as [[m s1]|] eqn:E; [simpl|done].
    apply Message_factory_mounted in E as [rb E].
    intros [= <-]. by eapply InvK_renderElement.
  - case_bool_decide; [|done]. intros [= <-]. by apply InvK_close.
  - intros [= <-]. unfold Message_closeAll.
    apply (InvK_frame (sweep (MessageList s) s)); [done|done|done|].
    by apply InvK_sweep.
  - destruct (mounted k s); [|done]. intros [= <-].
    apply (InvK_frame s); try done.
    + unfold onMouseEnter. by destruct (roots s !! k).
    + intros j. unfold mounted. by destruct (onMouseEnter_frame k s) as (_ & _ & -> & _).
    + apply onMouseEnter_frame.
  - destruct (mounted k s); [|done]. intros [= <-]. unfold onMouseLeave.
    apply (InvK_frame s); try done.
    + apply startDuration_frame.
    + intros j. apply mounted_startDuration.
    + apply startDuration_frame.
  - destruct (0 <=? dt); [|done]. intros [= <-]. by apply (InvK_frame s).
  - intros H. apply fire_cases in H as (t & Ht & _ & ->).
    assert (InvK (set_timers (delete id (timers s)) s)) as K0 by (by apply (InvK_frame s)).
    destruct (timerCallback_cases t (set_timers (delete id (timers s)) s))
      as [[_ ->]|[_ ->]]; [|done].
    apply InvK_close. by apply (InvK_frame (set_timers (delete id (timers s)) s)).
Qed.

Lemma InvK_run (acts : list action) (s s' : world) :
  Inv s → InvK s → run acts s = Some s' → InvK s'.
Proof.
  revert s. induction acts as [|a acts IH]; intros s I K; simpl.
  - by intros [= <-].
  - destruct (step s a) as [s1|] eqn:E; [simpl|done].
    apply IH; [by eapply Inv_step|by eapply InvK_step].
Qed.

Lemma InvK_reachable (s : world) : reachable s → InvK s.
Proof.
  intros (h & acts & H). eapply InvK_run; [apply Inv_boot|apply InvK_boot|done].
Qed.

(** ** The registry *)

Lemma InvR_step (s s' : world) (a : action) : InvR s → step s a = Some s' → InvR s'.
Proof.
  unfold InvR. intros IR H.
  pose proof (step_MessageList _ _ _ H) as HL.
  pose proof (step_keyIndex _ _ _ H) as HK.
  destruct a; simpl in HL, HK; rewrite HL, HK, ?Z.add_0_r; try done.
  rewrite fmap_app, length_app, IR. simpl length.
  replace (length (MessageList s) + 1)%nat with (S (length (MessageList s))) by lia.
  rewrite seqZ_S. f_equal; [f_equal; lia|]. simpl. f_equal. lia.
Qed.

Lemma InvR_run (acts : list action) (s s' : world) :
  InvR s → run acts s = Some s' → InvR s'.
Proof.
  revert s. induction acts as [|a acts IH]; intros s I; simpl.
  - by intros [= <-].
  - destruct (step s a) as [s1|] eqn:E; [simpl|done].
    apply IH. by eapply InvR_step.
Qed.

Lemma InvR_reachable (s : world) : reachable s → InvR s.
Proof. intros (h & acts & H). by apply (InvR_run acts (boot h)). Qed.

(** ** X1: a pending timer is the current timer of its message *)

(** X1. In every reachable state a pending timer is the one that the
    [timerRef] of its message holds, so a message has at most one pending
    timer: [startDuration] clears the timer it replaces, and entering and
    leaving a message again and again never piles timers up. *)
Theorem pending_timer_is_current (s : world) (id : Z) (t : timer) :
  reachable s → timers s !! id = Some t →
  (∃ i, roots s !! t_owner t = Some i ∧ i_timerRef i = id) ∧
  ∀ id' t', timers s !! id' = Some t' → t_owner t' = t_owner t → id' = id.
Proof.
  intros Hr Ht. pose proof (Inv_reachable _ Hr) as I.
  destruct (inv_timers _ I _ _ Ht) as (i & Ei & Em & Er).
  split.
  - by eauto.
  - intros id' t' Ht' Ho.
    destruct (inv_timers _ I _ _ Ht') as (i' & Ei' & _ & Er'). congruence.
Qed.

Lemma pending_timer_is_current_witness :
  ∃ i, roots
         (after [Create info (VStr "a") (Some 0); Create error (VStr "b") None;
                 MouseEnter 3; MouseLeave 3; Close {| key := 2 |}]) !! 3 = Some i ∧
       i_timerRef i = 3.
Proof.
  refine (proj1 (pending_timer_is_current
    (after [Create info (VStr "a") (Some 0); Create error (VStr "b") None;
            MouseEnter 3; MouseLeave 3; Close {| key := 2 |}])
    3 {| t_due := 3000; t_owner := 3; t_onDurationEnd := noop |} _ _)).
  - exists plainHost, [Create info (VStr "a") (Some 0); Create error (VStr "b") None;
            MouseEnter 3; MouseLeave 3; Close {| key := 2 |}].
    vm_compute. reflexivity.
  - vm_compute. reflexivity.
Defined.

(** ** X2: an action on one message leaves the others alone *)

Lemma close_local (m : MessageInstance) (k : Z) (s : world) :
  InvT s → key m ≠ k →
  roots (close m s) !! k = roots s !! k ∧
  ∀ id t, t_owner t = k →
    (timers (close m s) !! id = Some t ↔ timers s !! id = Some t).
Proof.
  intros IT Hk. split.
  - rewrite roots_close. by case_decide.
  - intros id t Ho. split; [apply timers_close_sub|].
    intros Ht. rewrite timers_close.
    destruct (roots s !! key m) as [i|] eqn:Ei; [|done].
    destruct (i_mounted i); [|done].
    rewrite lookup_delete. case_decide as Hid; [|done].
    subst id. pose proof (t_own _ IT _ _ _ Ei Ht). congruence.
Qed.

Lemma startDuration_local (j k : Z) (s : world) :
  InvT s → j ≠ k →
  roots (startDuration j s) !! k = roots s !! k ∧
  ∀ id t, t_owner t = k →
    (timers (startDuration j s) !! id = Some t ↔ timers s !! id = Some t).
Proof.
  intros IT Hk. unfold startDuration.
  destruct (roots s !! j) as [i|] eqn:Ei; [simpl|done]. split.
  - by rewrite lookup_insert_ne.
  - intros id t Ho. rewrite lookup_insert. case_decide as Hid.
    + subst id. split; [intros [= <-]; simpl in Ho; congruence|].
      intros Ht. pose proof (t_ids _ IT _ _ Ht). lia.
    + rewrite lookup_delete. case_decide as Hr; [|done].
      split; [done|]. intros Ht. subst id.
      pose proof (t_own _ IT _ _ _ Ei Ht). congruence.
Qed.

Lemma onMouseEnter_local (j k : Z) (s : world) :
  InvT s → j ≠ k →
  roots (onMouseEnter j s) !! k = roots s !! k ∧
  ∀ id t, t_owner t = k →
    (timers (onMouseEnter j s) !! id = Some t ↔ timers s !! id = Some t).
Proof.
  intros IT Hk. unfold onMouseEnter.
  destruct (roots s !! j) as [i|] eqn:Ei; [simpl|done]. split; [done|].
  intros id t Ho. rewrite lookup_delete. case_decide as Hr; [|done].
  split; [done|]. intros Ht. subst id.
  pose proof (t_own _ IT _ _ _ Ei Ht). congruence.
Qed.

(** X2. In every reachable state, an action other than [closeAll] changes
    nothing of a message it is not about: a factory call, a [close] on
    another handle, the pointer entering or leaving another message and the
    timer of another message leave its root (props, timer id, mounted or
    not) and its pending timer as they are. In particular clearing the
    timer of one message never cancels the timer of another. *)
Theorem actions_are_local (s s' : world) (a : action) (k : Z) :
  reachable s → step s a = Some s' →
  a ≠ CloseAll → target s a ≠ Some k → is_Some (roots s !! k) →
  roots s' !! k = roots s !! k ∧
  ∀ id t, t_owner t = k → (timers s' !! id = Some t ↔ timers s !! id = Some t).
Proof.
  intros Hr Hs Ha Ht Hk.
  pose proof (Inv_reachable _ Hr) as I. pose proof (InvT_reachable _ Hr) as IT.
  destruct a as [theme content d|m| |j|j|dt|id0]; simpl in Hs, Ht.
  - destruct (Message_factory _ _ _ _) as [[m s1]|] eqn:E; [simpl in Hs|done].
    apply Message_factory_mounted in E as [rb E].
    injection Hs as <-.
    destruct (renderElement_root _ _ _ _ _ E) as (Hm & _ & _ & _ & _ & Hro & Hd).
    assert (k ≠ key m) as Hne by (apply (inv_issued _ I) in Hk; lia).
    split; [by apply Hro|]. intros id t Ho.
    destruct (prop _ "duration"); destruct Hd as [_ ->]; try done.
    rewrite lookup_insert. case_decide as Hid.
    + subst id. split; [intros [= <-]; simpl in Ho; congruence|].
      intros Ht'. pose proof (t_ids _ IT _ _ Ht'). lia.
    + rewrite lookup_delete. case_decide as H0; [|done].
      split; [done|]. intros Ht'. subst id.
      pose proof (t_ids _ IT _ _ Ht'). lia.
  - case_bool_decide; [|done]. injection Hs as <-.
    apply close_local; [done|]. congruence.
  - done.
  - destruct (mounted j s); [|done]. injection Hs as <-.
    apply onMouseEnter_local; [done|]. congruence.
  - destruct (mounted j s); [|done]. injection Hs as <-.
    apply startDuration_local; [done|]. congruence.
  - destruct (0 <=? dt); [|done]. by injection Hs as <-.
  - apply fire_cases in Hs as (t0 & Ht0 & _ & ->).
    rewrite Ht0 in Ht. simpl in Ht.
    assert (t_owner t0 ≠ k) as Hne by congruence.
    set (s0 := set_timers (delete id0 (timers s)) s).
    assert (InvT s0) as IT0.
    { apply (InvT_shrink s); [done|done| |by eauto].
      intros id' t'. simpl. rewrite lookup_delete. by case_decide. }
    assert (∀ id t, t_owner t = k →
              (timers s0 !! id = Some t ↔ timers s !! id = Some t)) as H0.
    { intros id t Ho. simpl. rewrite lookup_delete. case_decide as Hid; [|done].
      split; [done|]. intros Ht'. subst id. congruence. }
    destruct (timerCallback_cases t0 s0) as [[_ ->]|[_ ->]]; [|by split].
    destruct (close_local {| key := t_owner t0 |} k
                (log (OnDurationEnd (t_owner t0) {| key := t_owner t0 |}) s0))
      as [Hr1 Ht1]; [|done|].
    { by apply (InvT_shrink s0); [done|done|done|eauto]. }
    split; [by rewrite Hr1|]. intros id t Ho. rewrite (Ht1 id t Ho). by apply H0.
Qed.

Lemma actions_are_local_witness :
  timers (after [Create info (VStr "a") (Some 500); Create error (VStr "b") (Some 500);
                 Close {| key := 3 |}]) !! 1
  = Some {| t_due := 500; t_owner := 2; t_onDurationEnd := noop |}.
Proof.
  destruct (actions_are_local
    (after [Create info (VStr "a") (Some 500); Create error (VStr "b") (Some 500)])
    (after [Create info (VStr "a") (Some 500); Create error (VStr "b") (Some 500);
            Close {| key := 3 |}])
    (Close {| key := 3 |}) 2) as [_ H].
  - exists plainHost, [Create info (VStr "a") (Some 500); Create error (VStr "b") (Some 500)].
    vm_compute. reflexivity.
  - vm_compute. reflexivity.
  - discriminate.
  - simpl. by intros [= H].
  - vm_compute. by eexists.
  - apply H; vm_compute; reflexivity.
Defined.

(** ** X3: the pointer leaving a message always arms a timer *)

(** X3. In every reachable state, when the pointer leaves a mounted
    message, [startDuration] runs whatever the duration is: one timer is
    armed for the message, due the delay that [setTimeout] makes of its
    duration after the leave. For a message whose duration is undefined or
    null that delay is 0: the timer can fire at once, and with a callable
    [onDurationEnd] the message is then closed, although no timer was armed
    when it was mounted. *)
Theorem leave_always_arms (s : world) (k : Z) (i : inst) :
  reachable s → roots s !! k = Some i → i_mounted i = true →
  ∃ s1 t, step s (MouseLeave k) = Some s1 ∧
    timers s1 !! nextTimer s = Some t ∧ t_owner t = k ∧
    t_due t = now s1 + timerDelay (host s) (prop (i_props i) "duration") ∧
    (prop (i_props i) "duration" = VUndef ∨ prop (i_props i) "duration" = VNull →
       t_due t = now s1 ∧
       ∃ s2, step s1 (Fire (nextTimer s)) = Some s2 ∧
         (typeof (t_onDurationEnd t) = "function" → mounted k s2 = false)).
Proof.
  intros _ Ei Em.
  assert (mounted k s = true) as Hmk by (unfold mounted; by rewrite Ei).
  simpl. rewrite Hmk.
  unfold onMouseLeave. rewrite (startDuration_Some _ _ _ Ei).
  eexists _, _. split; [reflexivity|]. simpl. rewrite lookup_insert_eq.
  split; [reflexivity|]. simpl. split; [done|]. split; [done|].
  intros Hnn.
  assert (timerDelay (host s) (prop (i_props i) "duration") = 0) as Hd.
  { by destruct Hnn as [-> | ->]. }
  rewrite Hd, Z.add_0_r. split; [done|].
  unfold fire. simpl. rewrite lookup_insert_eq. simpl.
  rewrite Z.leb_refl.
  eexists. split; [reflexivity|]. intros Hf.
  rewrite timerCallback_function by done. rewrite mounted_close. simpl.
  by case_decide.
Qed.

Lemma leave_always_arms_witness :
  mounted 2
    (after [Create question
              (VObj (<["content" := VStr "stay?"]> {["duration" := VUndef]})) None;
            Elapse 5000; MouseLeave 2; Fire 1]) = false.
Proof.
  destruct (leave_always_arms
              (after [Create question
                        (VObj (<["content" := VStr "stay?"]> {["duration" := VUndef]}))
                        None; Elapse 5000])
              2
              {| i_props :=
                   elementProps question
                     (factoryConfig
                        (VObj (<["content" := VStr "stay?"]> {["duration" := VUndef]}))
                        None);
                 i_timerRef := 0; i_mounted := true |})
    as (s1 & t & Hs1 & Ht & _ & _ & H);
    [|vm_compute; reflexivity|reflexivity|].
  { exists plainHost,
      [Create question
         (VObj (<["content" := VStr "stay?"]> {["duration" := VUndef]})) None;
       Elapse 5000].
    vm_compute. reflexivity. }
  destruct H as (_ & s2 & Hs2 & Hm); [left; vm_compute; reflexivity|].
  vm_compute in Hs1. injection Hs1 as <-.
  vm_compute in Ht. injection Ht as <-.
  specialize (Hm eq_refl). vm_compute in Hs2. injection Hs2 as <-.
  vm_compute. reflexivity.
Defined.

(** ** X4: a hovered message is paused *)

(** X4. In every reachable state, once the pointer has entered a mounted
    message, the message has no pending timer, and as long as the pointer
    does not leave it and it is not closed by its handle or by [closeAll],
    it stays mounted and no timer is armed for it, however much time
    passes. *)
Theorem hovered_message_stays (s : world) (k : Z) (acts : list action) (s' : world) :
  reachable s → run (MouseEnter k :: acts) s = Some s' → calm k acts →
  (∀ id t, timers (onMouseEnter k s) !! id = Some t → t_owner t ≠ k) ∧
  mounted k s' = true ∧
  ∀ id t, timers s' !! id = Some t → t_owner t ≠ k.
Proof.
  intros Hr Hrun Hcalm. pose proof (Inv_reachable _ Hr) as I.
  simpl in Hrun. destruct (mounted k s) eqn:Em; [simpl in Hrun|done].
  assert (∀ id t, timers (onMouseEnter k s) !! id = Some t → t_owner t ≠ k) as Hno.
  { intros id t Ht. by apply timers_onMouseEnter in Ht as [_ Ht]. }
  assert (∀ T, safeUntil k T (onMouseEnter k s)) as Hsafe.
  { intros T. split.
    - unfold mounted in *. by destruct (onMouseEnter_frame k s) as (_ & _ & -> & _).
    - intros id t Ht Ho. by destruct (Hno _ _ Ht). }
  pose proof (Inv_onMouseEnter k s I) as I1.
  split; [done|]. split.
  - apply (run_safeUntil acts _ s' k (now s' + 1) I1 (Hsafe _) Hrun Hcalm). lia.
  - intros id t Ht Ho.
    destruct (run_safeUntil acts _ s' k (Z.max (now s' + 1) (t_due t + 1))
                I1 (Hsafe _) Hrun Hcalm) as [_ Hdue]; [lia|].
    specialize (Hdue _ _ Ht Ho). lia.
Qed.

Lemma hovered_message_stays_witness :
  mounted 2
    (after [Create info (VStr "a") (Some 1000); Elapse 900; MouseEnter 2;
            Elapse 100000; Create info (VStr "b") (Some 10)]) = true.
Proof.
  refine (proj1 (proj2 (hovered_message_stays
    (after [Create info (VStr "a") (Some 1000); Elapse 900]) 2
    [Elapse 100000; Create info (VStr "b") (Some 10)] _ _ _ _))).
  - exists plainHost, [Create info (VStr "a") (Some 1000); Elapse 900].
    vm_compute. reflexivity.
  - vm_compute. reflexivity.
  - repeat constructor.
Defined.

(** ** X5: when the timer of a message can fire *)

(** X5. A message created with a numeric duration [z] is not closed by
    its timer before the delay [setTimeout] makes of [z] has passed, which
    is [max 0 z] milliseconds for a number that fits a signed 32-bit
    integer: until then it stays mounted as long as nobody closes it and
    the pointer does not leave it. Once that time has passed, and not
    before, its timer can fire; when it does, with a callable
    [onDurationEnd], the message is closed. *)
Theorem auto_dismiss_timing (s : world)
    (theme : Theme) (content : value) (d : option Z)
    (m : MessageInstance) (s1 : world) (z : Z) :
  reachable s →
  Message_factory theme content d s = Some (m, s1) →
  prop (factoryConfig content d) "duration" = VNum z →
  (- 2 ^ 31 ≤ z ≤ 2 ^ 31 - 1 → timerDelay (host s) (VNum z) = Z.max 0 z) ∧
  (∀ acts' sE, run acts' s1 = Some sE → calm (key m) acts' →
     now sE < now s1 + timerDelay (host s) (VNum z) → mounted (key m) sE = true) ∧
  (∀ dt, 0 ≤ dt →
     (is_Some (run [Elapse dt; Fire (nextTimer s)] s1)
      ↔ timerDelay (host s) (VNum z) ≤ dt)) ∧
  (∀ dt sE, run [Elapse dt; Fire (nextTimer s)] s1 = Some sE →
     typeof (defaulted (prop (factoryConfig content d) "onDurationEnd") noop)
       = "function" →
     mounted (key m) sE = false).
Proof.
  intros Hreach Hf Hd. pose proof (Inv_reachable _ Hreach) as I.
  assert (Inv s1) as I1.
  { apply (Inv_step s s1 (Create theme content d) I). simpl. by rewrite Hf. }
  apply Message_factory_mounted in Hf as [rb Hf].
  destruct (renderElement_root _ _ _ _ _ Hf) as (Hk & _ & _ & Hn & _ & _ & Hr).
  rewrite Hd in Hr. destruct Hr as [Hr Ht].
  pose proof (timerDelay_nonneg (host s) (VNum z)) as Hnn.
  set (dl := timerDelay (host s) (VNum z)) in *.
  split.
  { intros Hz. unfold dl, timerDelay. rewrite ToInt32_small by lia. done. }
  assert (timers s1 !! nextTimer s =
            Some {| t_due := now s + dl; t_owner := key m;
                    t_onDurationEnd :=
                      defaulted (prop (elementProps theme (factoryConfig content d))
                                   "onDurationEnd") noop |}) as Hid.
  { rewrite Ht. by rewrite lookup_insert_eq. }
  split; [|split].
  - intros acts' sE HrunE Hcalm Hnow.
    apply (run_safeUntil acts' s1 sE (key m) (now s1 + dl)); try done.
    split.
    + unfold mounted. by rewrite Hr.
    + intros id t Hti Ho. rewrite Ht in Hti. rewrite lookup_insert in Hti.
      case_decide.
      * injection Hti as <-. simpl. lia.
      * rewrite lookup_delete in Hti. case_decide; [done|].
        destruct (inv_timers _ I _ _ Hti) as (i & Ei & _).
        assert (is_Some (roots s !! t_owner t)) as Hs by eauto.
        apply (inv_issued _ I) in Hs. lia.
  - intros dt Hdt. simpl. rewrite (proj2 (Z.leb_le 0 dt) Hdt). simpl.
    unfold fire. simpl. rewrite Hid. simpl. rewrite Hn.
    destruct (now s + dl <=? now s + dt) eqn:E.
    + apply Z.leb_le in E. split; [lia|by eauto].
    + apply Z.leb_gt in E. split; [by intros [? ?]|lia].
  - intros dt sE HrunE Hfun. simpl in HrunE.
    destruct (0 <=? dt); [simpl in HrunE|done].
    unfold fire in HrunE. simpl in HrunE. rewrite Hid in HrunE. simpl in HrunE.
    destruct (_ <=? _); [|done]. injection HrunE as <-.
    rewrite timerCallback_function.
    + rewrite mounted_close. simpl. by case_decide.
    + simpl. unfold prop at 1. rewrite elementProps_lookup by done. exact Hfun.
Qed.

Lemma auto_dismiss_timing_witness :
  mounted 2 (after [Create success (VStr "ok") (Some 2000); Elapse 1999]) = true ∧
  is_Some (run [Elapse 2000; Fire 1] (after [Create success (VStr "ok") (Some 2000)])).
Proof.
  destruct (auto_dismiss_timing initial success (VStr "ok") (Some 2000)
              {| key := 2 |} (after [Create success (VStr "ok") (Some 2000)]) 2000)
    as (_ & Ha & Hb & _);
    [by exists plainHost, []|vm_compute; reflexivity|vm_compute; reflexivity|].
  split.
  - apply (Ha [Elapse 1999]); [vm_compute; reflexivity|repeat constructor|].
    vm_compute. reflexivity.
  - apply Hb; [lia|vm_compute; discriminate].
Defined.

(** ** X11: an onDurationEnd that is not a function *)

(** X11. In every reachable state, when the timer of a message fires and
    its [onDurationEnd] is given but is not a function (say [null]: the
    default only replaces undefined), the call raises before [close] is
    reached: nothing is called back, the message stays mounted, it has no
    timer left, and it stays mounted until the pointer leaves it or it is
    closed by its handle or by [closeAll]. *)
Theorem failing_onDurationEnd_blocks_close (s : world) (id : Z) (t : timer) (s' : world) :
  reachable s → timers s !! id = Some t →
  typeof (t_onDurationEnd t) ≠ "function" →
  fire id s = Some s' →
  trace s' = trace s ∧ mounted (t_owner t) s' = true ∧
  (∀ id' t', timers s' !! id' = Some t' → t_owner t' ≠ t_owner t) ∧
  ∀ acts sE, run acts s' = Some sE → calm (t_owner t) acts →
    mounted (t_owner t) sE = true.
Proof.
  intros Hr Ht Hnf Hf. pose proof (Inv_reachable _ Hr) as I.
  assert (Inv s') as I' by (by apply (Inv_fire id s)).
  apply fire_cases in Hf as (t0 & Ht0 & _ & ->).
  rewrite Ht in Ht0. injection Ht0 as <-.
  destruct (timerCallback_cases t (set_timers (delete id (timers s)) s))
    as [[Hfun _]|[_ Hs]]; [done|].
  rewrite Hs in *. clear Hs.
  destruct (inv_timers _ I _ _ Ht) as (i & Ei & Em & Er).
  assert (mounted (t_owner t) (set_timers (delete id (timers s)) s) = true) as Hm.
  { unfold mounted. simpl. by rewrite Ei. }
  assert (∀ id' t', timers (set_timers (delete id (timers s)) s) !! id' = Some t' →
            t_owner t' ≠ t_owner t) as Hno.
  { intros id' t'. simpl. rewrite lookup_delete. case_decide as Hid; [done|].
    intros Ht' Ho. destruct (inv_timers _ I _ _ Ht') as (i' & Ei' & _ & Er').
    congruence. }
  split; [done|]. split; [done|]. split; [done|].
  intros acts sE HrunE Hcalm.
  apply (run_safeUntil acts _ sE (t_owner t) (now sE + 1) I'); try done; [|lia].
  split; [done|]. intros id' t' Ht' Ho. by destruct (Hno _ _ Ht').
Qed.

Lemma failing_onDurationEnd_blocks_close_witness :
  mounted 2
    (after [Create info
              (VObj (<["content" := VStr "a"]> {["onDurationEnd" := VNull]}))
              (Some 100);
            Elapse 100; Fire 1; Elapse 100000]) = true.
Proof.
  destruct (failing_onDurationEnd_blocks_close
              (after [Create info
                        (VObj (<["content" := VStr "a"]> {["onDurationEnd" := VNull]}))
                        (Some 100); Elapse 100])
              1 {| t_due := 100; t_owner := 2; t_onDurationEnd := VNull |}
              (after [Create info
                        (VObj (<["content" := VStr "a"]> {["onDurationEnd" := VNull]}))
                        (Some 100); Elapse 100; Fire 1]))
    as (_ & _ & _ & H).
  - eexists plainHost, [Create info
               (VObj (<["content" := VStr "a"]> {["onDurationEnd" := VNull]}))
               (Some 100); Elapse 100].
    vm_compute. reflexivity.
  - vm_compute. reflexivity.
  - discriminate.
  - vm_compute. reflexivity.
  - apply (H [Elapse 100000]); [vm_compute; reflexivity|repeat constructor].
Defined.

(** ** X6: a factory call that gives no handle *)



(** ** X7: a container keeps what its creation gave it *)

Lemma wrapperAttrs_drop_kid (k : Z) (w : wrapper) :
  wrapperAttrs (drop_kid k w) = wrapperAttrs w.
Proof. done. Qed.

Lemma attrs_close (m : MessageInstance) (s : world) :
  wrapperAttrs <$> page (close m s) = wrapperAttrs <$> page s.
Proof.
  rewrite page_close, <- list_fmap_compose. by apply list_fmap_ext.
Qed.

Lemma attrs_sweep (l : list MessageInstance) (s : world) :
  wrapperAttrs <$> page (sweep l s) = wrapperAttrs <$> page s.
Proof.
  revert s. induction l as [|m l IH]; intros s; [done|].
  change (sweep (m :: l) s) with (sweep l (close m s)).
  by rewrite IH, attrs_close.
Qed.

Lemma attrs_appendChild (c : wrapper) (k : Z) (s : world) :
  wrapperAttrs <$> page (appendChild c k s) = wrapperAttrs <$> page s.
Proof.
  unfold appendChild. simpl. rewrite <- list_fmap_compose.
  apply list_fmap_ext. intros _ w _. simpl. by destruct (Nat.eqb _ _).
Qed.

Lemma step_attrs (s s' : world) (a : action) :
  step s a = Some s' →
  (wrapperAttrs <$> page s) `prefix_of` (wrapperAttrs <$> page s').
Proof.
  destruct a as [theme content d|m| |k|k|dt|id]; simpl.
  - destruct (Message_factory _ _ _ _) as [[m s1]|] eqn:E; [simpl|done].
    apply Message_factory_mounted in E as [rb E].
    intros [= <-].
    destruct (renderElement_eq _ _ _ _ _ E) as (c & s0 & Ec & -> & ->).
    rewrite attrs_appendChild. simpl key.
    assert (∀ x, page x = page s0 →
              wrapperAttrs <$> page s `prefix_of` wrapperAttrs <$> page x) as Hx.
    { intros x ->.
      destruct (createContainer_cases _ _ _ _ Ec)
        as [_ [[_ ->]|(Hp & _ & _ & _ & _ & _ & _ & ->)]]; [done|].
      rewrite Hp. simpl. apply prefix_nil. }
    apply Hx. destruct (String.eqb _ _); [|done].
    by destruct (startDuration_frame (keyIndex s + 1)
                   (mountAt (keyIndex s + 1)
                      (elementProps theme (factoryConfig content d)) s0))
      as (_ & _ & -> & _).
  - case_bool_decide; [|done]. intros [= <-]. by rewrite attrs_close.
  - intros [= <-]. unfold Message_closeAll.
    change (page (set_MessageList [] (foldl (λ s message, close message s) s
                                        (MessageList s))))
      with (page (sweep (MessageList s) s)).
    by rewrite attrs_sweep.
  - destruct (mounted k s); [|done]. intros [= <-].
    unfold onMouseEnter. by destruct (roots s !! k).
  - destruct (mounted k s); [|done]. intros [= <-]. unfold onMouseLeave.
    by destruct (startDuration_frame k s) as (_ & _ & -> & _).
  - destruct (0 <=? dt); [|done]. by intros [= <-].
  - intros H. apply fire_cases in H as (t & _ & _ & ->).
    destruct (timerCallback_cases t (set_timers (delete id (timers s)) s))
      as [[_ ->]|[_ ->]]; [|done].
    by rewrite attrs_close.
Qed.

(** X7. Along every run, from any state, the wrappers of the page stay
    where they are and keep their identity, parent, z-index, placement
    offsets and top offset: no action removes or restyles a container, a
    later call with another z-index or placement changes nothing of it;
    only its children change, and new wrappers come after the old ones. *)
Theorem containers_are_kept (acts : list action) (s s' : world) :
  run acts s = Some s' →
  (wrapperAttrs <$> page s) `prefix_of` (wrapperAttrs <$> page s').
Proof.
  revert s. induction acts as [|a acts IH]; intros s; simpl.
  - by intros [= <-].
  - destruct (step s a) as [s1|] eqn:E; [simpl|done].
    intros H. etrans; [by apply step_attrs in E|by apply IH].
Qed.

Lemma containers_are_kept_witness :
  [(0%nat, DocumentBody, VNum 9, Some p_bottom, @None Z)]
  `prefix_of`
  wrapperAttrs <$> page
    (after [Create info
              (VObj (<["content" := VStr "a"]>
                       (<["zIndex" := VNum 9]> {["placement" := VStr "bottom"]}))) None;
            Create info
              (VObj (<["content" := VStr "b"]>
                       (<["zIndex" := VNum 77]> {["placement" := VStr "top"]}))) None;
            CloseAll]).
Proof.
  refine (containers_are_kept
    [Create info
       (VObj (<["content" := VStr "b"]>
                (<["zIndex" := VNum 77]> {["placement" := VStr "top"]}))) None;
     CloseAll]
    (after [Create info
              (VObj (<["content" := VStr "a"]>
                       (<["zIndex" := VNum 9]> {["placement" := VStr "bottom"]}))) None])
    _ _).
  vm_compute. reflexivity.
Defined.

(** ** X8: the children of the container are the mounted messages *)

(** X8. In every reachable state the message divs inside a container are
    exactly the messages that are mounted, each once and in the order of
    their creation; and a page without container means that no factory call
    has succeeded yet, so nothing is mounted. *)
Theorem container_holds_the_mounted (s : world) :
  reachable s →
  (page s = [] → keyIndex s = 1 ∧ ∀ k, mounted k s = false) ∧
  ∀ w, w ∈ page s →
    (∀ k, k ∈ w_kids w ↔ mounted k s = true) ∧ StronglySorted Z.lt (w_kids w).
Proof.
  intros Hr. pose proof (Inv_reachable _ Hr) as I.
  pose proof (InvK_reachable _ Hr) as [K1 K2]. split; [|done].
  intros Hp. specialize (K1 Hp). split; [done|].
  intros k. unfold mounted. destruct (roots s !! k) as [i|] eqn:E; [|done].
  assert (is_Some (roots s !! k)) as Hs by eauto.
  apply (inv_issued _ I) in Hs. lia.
Qed.

Lemma container_holds_the_mounted_witness :
  mounted 3
    (after [Create info (VStr "a") None; Create info (VStr "b") None;
            Create info (VStr "c") None; Close {| key := 2 |}]) = true.
Proof.
  destruct (container_holds_the_mounted
              (after [Create info (VStr "a") None; Create info (VStr "b") None;
                      Create info (VStr "c") None; Close {| key := 2 |}]))
    as [_ H].
  - exists plainHost, [Create info (VStr "a") None; Create info (VStr "b") None;
            Create info (VStr "c") None; Close {| key := 2 |}].
    vm_compute. reflexivity.
  - destruct (H {| w_id := 0; w_parent := DocumentBody; w_zIndex := VNum 6000;
                   w_offsets := Some p_top; w_top := Some 32; w_kids := [3; 4] |})
      as [Hk _].
    + vm_compute. apply list_elem_of_here.
    + apply Hk. simpl. apply list_elem_of_here.
Defined.

(** ** X9: what the registry holds *)

Lemma registrySize_run (acts : list action) (s s' : world) :
  run acts s = Some s' →
  length (MessageList s') = registrySize acts (length (MessageList s)).
Proof.
  revert s. induction acts as [|a acts IH]; intros s; simpl.
  - by intros [= <-].
  - destruct (step s a) as [s1|] eqn:E; [simpl|done].
    intros H. rewrite (IH _ H). unfold registrySize. simpl. f_equal.
    pose proof (step_MessageList _ _ _ E) as HL.
    destruct a; rewrite HL; try done. rewrite length_app. simpl. lia.
Qed.

(** X9. After any run from module load, the factory calls whose promise
    was rejected included, the registry holds handles in the order of
    their calls: the keys grow along it, each is a key that was issued, and
    no handle is in it twice; the counter has moved by one for every
    factory call that did not raise. When every call of the run mounted its
    instance, the registry holds one handle for each factory call since the
    last [closeAll], closed or not, and the keys are consecutive and end at
    the counter. *)
Theorem registry_holds_recent_calls (h : Host) (acts : list action) (s : world) :
  runAll acts (boot h) = Some s →
  increasing (MessageList s) ∧
  NoDup (MessageList s) ∧
  (∀ m, m ∈ MessageList s → 2 ≤ key m ≤ keyIndex s) ∧
  keyIndex s = 1 + creates acts ∧
  (run acts (boot h) = Some s →
     length (MessageList s) = registrySize acts 0 ∧
     key <$> MessageList s =
       seqZ (keyIndex s + 1 - Z.of_nat (length (MessageList s)))
            (Z.of_nat (length (MessageList s)))).
Proof.
  intros Hrun.
  pose proof (InvKeys_runAll _ _ _ (InvKeys_boot h) Hrun) as [X1 X2 X3 X4].
  split; [done|]. split; [|split; [done|split]].
  - apply (NoDup_fmap_1 key). by apply increasing_NoDup.
  - by rewrite (runAll_keyIndex _ _ _ Hrun).
  - intros Hr. split; [by apply (registrySize_run acts (boot h))|].
    apply InvR_reachable. by exists h, acts.
Qed.

Lemma registry_holds_recent_calls_witness :
  keyIndex (afterAll [Create info (VStr "a") None;
                      Create info (VObj {["title" := VStr "x"]}) None;
                      Create info (VStr "b") None]) = 4 ∧
  key <$> MessageList
    (after [Create info (VStr "a") None; CloseAll; Create info (VStr "b") None;
            Create info (VStr "c") None; Close {| key := 3 |}])
  = [3; 4].
Proof.
  split.
  - destruct (registry_holds_recent_calls plainHost
                [Create info (VStr "a") None;
                 Create info (VObj {["title" := VStr "x"]}) None;
                 Create info (VStr "b") None]
                (afterAll [Create info (VStr "a") None;
                           Create info (VObj {["title" := VStr "x"]}) None;
                           Create info (VStr "b") None]))
      as (_ & _ & _ & H & _); [vm_compute; reflexivity|].
    rewrite H. vm_compute. reflexivity.
  - destruct (registry_holds_recent_calls plainHost
                [Create info (VStr "a") None; CloseAll; Create info (VStr "b") None;
                 Create info (VStr "c") None; Close {| key := 3 |}]
                (after [Create info (VStr "a") None; CloseAll;
                        Create info (VStr "b") None; Create info (VStr "c") None;
                        Close {| key := 3 |}]))
      as (_ & _ & _ & _ & H); [vm_compute; reflexivity|].
    destruct H as [_ H]; [vm_compute; reflexivity|].
    rewrite H. vm_compute. reflexivity.
Defined.

(** ** X10: after closeAll *)

Lemma drop_kid_none (k : Z) (w : wrapper) : w_kids w = [] → drop_kid k w = w.
Proof. destruct w; simpl. intros ->. done. Qed.

(** X10. In every reachable state [closeAll] leaves no message behind:
    every container is empty, and from there a second [closeAll] and a
    [close] on any handle change nothing at all. *)
Theorem closeAll_leaves_nothing (s : world) :
  reachable s →
  (∀ w, w ∈ page (Message_closeAll s) → w_kids w = []) ∧
  Message_closeAll (Message_closeAll s) = Message_closeAll s ∧
  ∀ m, close m (Message_closeAll s) = Message_closeAll s.
Proof.
  intros Hr.
  assert (reachable (Message_closeAll s)) as Hr'.
  { destruct Hr as (h & acts & H). exists h, (acts ++ [CloseAll]).
    rewrite run_app, H. done. }
  pose proof (Inv_reachable _ Hr) as I.
  pose proof (InvK_reachable _ Hr') as [_ K2].
  assert (∀ w, w ∈ page (Message_closeAll s) → w_kids w = []) as Hk.
  { intros w Hw. destruct (K2 w Hw) as [Hkw _].
    destruct (w_kids w) as [|k l] eqn:E; [done|].
    assert (mounted k (Message_closeAll s) = true) as Hm
      by (apply Hkw, list_elem_of_here).
    by rewrite mounted_closeAll in Hm. }
  split; [done|split].
  - unfold Message_closeAll at 1. simpl. by apply world_eq.
  - intros m. unfold close.
    rewrite unmount_unmounted by (by apply mounted_closeAll).
    unfold remove. apply world_eq; try done. simpl.
    rewrite <- (list_fmap_id (page (Message_closeAll s))) at 2.
    apply list_fmap_ext. intros j w Hw. apply drop_kid_none, Hk.
    apply list_elem_of_lookup. by eauto.
Qed.

Lemma closeAll_leaves_nothing_witness :
  Message_closeAll
    (Message_closeAll
       (after [Create info (VStr "a") None; Create info (VStr "b") (Some 10);
               MouseEnter 2]))
  = Message_closeAll
      (after [Create info (VStr "a") None; Create info (VStr "b") (Some 10);
              MouseEnter 2]).
Proof.
  refine (proj1 (proj2 (closeAll_leaves_nothing _ _))).
  exists plainHost, [Create info (VStr "a") None; Create info (VStr "b") (Some 10); MouseEnter 2].
  vm_compute. reflexivity.
Defined.

(** ** X12: the theme of an instance *)

Lemma elementProps_theme (theme : Theme) (config : gmap string value) :
  elementProps theme config !! "theme" =
  match config !! "theme" with
  | Some v => Some v
  | None => Some (VStr (theme_name theme))
  end.
Proof.
  unfold elementProps. rewrite lookup_insert_ne by done.
  destruct (config !! "theme") as [v|] eqn:E.
  - by apply lookup_union_Some_l.
  - rewrite lookup_union_r by done. by rewrite lookup_insert_eq.
Qed.

(** X12. The [theme] prop of an instance is the [theme] field of the
    configuration when it has one, whichever factory was called; the theme
    of the factory is used only when the configuration has no such field,
    as for plain content. [MessageIcon] looks that prop up as it is, while
    the class name is built from it with ['info'] standing in for
    undefined: a configuration with [theme: undefined] gets the class of
    info and an icon lookup of undefined. *)
Theorem theme_of_instance (theme : Theme) (content : value) (d : option Z)
    (s : world) (m : MessageInstance) (s' : world) :
  Message_factory theme content d s = Some (m, s') →
  ∃ i, roots s' !! key m = Some i ∧
    MessageIcon_theme (i_props i) =
      match fields content !! "theme" with
      | Some v => if isConfig content then v else VStr (theme_name theme)
      | None => VStr (theme_name theme)
      end ∧
    Message_theme (i_props i) =
      match fields content !! "theme" with
      | Some v => if isConfig content then defaulted v (VStr "info")
                  else VStr (theme_name theme)
      | None => VStr (theme_name theme)
      end.
Proof.
  intros H. apply Message_factory_mounted in H as [rb H].
  destruct (renderElement_root _ _ _ _ _ H) as (_ & _ & _ & _ & _ & _ & Hr).
  assert (∃ i, roots s' !! key m = Some i ∧
               i_props i = elementProps theme (factoryConfig content d))
    as (i & Ei & Ep).
  { destruct (prop (factoryConfig content d) "duration");
      destruct Hr as [Hr _]; eexists; by split. }
  exists i. split; [done|]. rewrite Ep.
  unfold MessageIcon_theme, Message_theme, prop.
  rewrite elementProps_theme.
  assert (factoryConfig content d !! "theme" =
            if isConfig content then fields content !! "theme" else None) as Ht.
  { unfold factoryConfig. rewrite lookup_insert_ne by done.
    destruct (isConfig content).
    - destruct (fields content !! "theme") as [v|] eqn:E.
      + by apply lookup_union_Some_l.
      + rewrite lookup_union_r by done. by rewrite lookup_singleton_ne.
    - rewrite lookup_insert_ne by done. by rewrite lookup_singleton_ne. }
  rewrite Ht.
  destruct (isConfig content); destruct (fields content !! "theme"); done.
Qed.

Lemma theme_of_instance_witness :
  ∃ i, roots (after [Create error
                       (VObj (<["content" := VStr "a"]> {["theme" := VUndef]}))
                       None]) !! 2 = Some i ∧
       MessageIcon_theme (i_props i) = VUndef ∧
       Message_theme (i_props i) = VStr "info".
Proof.
  destruct (theme_of_instance error
              (VObj (<["content" := VStr "a"]> {["theme" := VUndef]})) None
              initial {| key := 2 |}
              (after [Create error
                        (VObj (<["content" := VStr "a"]> {["theme" := VUndef]}))
                        None]))
    as (i & Ei & Eic & Et); [vm_compute; reflexivity|].
  exists i. split; [exact Ei|]. rewrite Eic, Et. split; vm_compute; reflexivity.
Defined.

(** ** X13: the style of an instance *)

(** The decimal numeral of an index starts with no letter. *)
Lemma pretty_N_go_letter (x : N) (s t : string) (c : Ascii.ascii) :
  (∀ d, pretty_N_char d ≠ c) → s ≠ String c t → pretty_N_go x s ≠ String c t.
Proof.
  intros Hc. revert s. induction (N.lt_wf_0 x) as [x _ IH]; intros s Hs.
  assert (x = 0 ∨ 0 < x)%N as [->|Hx] by lia.
  - by rewrite pretty_N_go_0.
  - rewrite pretty_N_go_step by done. apply IH; [by apply N.div_lt|].
    intros [= E _]. by apply Hc in E.
Qed.

Lemma pretty_nat_letter (n : nat) (c : Ascii.ascii) (t : string) :
  (∀ d, pretty_N_char d ≠ c) → pretty n ≠ String c t.
Proof.
  intros Hc. unfold pretty, pretty_nat, pretty, pretty_N. case_decide.
  - intros [= E _]. by apply (Hc 0%N).
  - by apply pretty_N_go_letter.
Qed.

(** The spread of an array has its items under their indices. *)
Lemma spread_array_from (items : list value) (j n : nat) :
  list_to_map (M := gmap string value)
    (imap (λ i x, (pretty (j + i)%nat, x)) items) !! pretty (j + n)%nat
  = items !! n.
Proof.
  revert j n. induction items as [|x items IH]; intros j n; [done|].
  simpl. destruct n as [|n].
  - by rewrite lookup_insert_eq.
  - rewrite lookup_insert_ne by (intros E; apply (inj pretty) in E; lia).
    rewrite (imap_ext _ (λ i x, (pretty (S j + i)%nat, x)))
      by (intros i y _; simpl; do 2 f_equal; lia).
    replace (j + S n)%nat with (S j + n)%nat by lia. apply IH.
Qed.

Lemma spread_array (items : list value) (n : nat) :
  spread (VArr items) !! pretty n = items !! n.
Proof. apply (spread_array_from items 0 n). Qed.

(** X13. The style an instance gets is the [style] field of the
    configuration when it has one, and then its [offset] is dropped.
    Without that field, an [offset] that is a plain object gives its own
    fields with [position] set to ['absolute'] and [width] to ['auto'],
    whatever the offset says for these two; an [offset] that is an array
    gives its items under their indices, with the same two fields; and a
    falsy or missing [offset] gives the empty style. *)
Theorem style_of_instance (theme : Theme) (config : gmap string value)
    (s : world) (m : MessageInstance) (b : bool) (s' : world) :
  renderElement theme config s = Some (Mounted b m s') →
  ∃ i, roots s' !! key m = Some i ∧
    match config !! "style" with
    | Some v => i_props i !! "style" = Some v
    | None =>
        match prop config "offset" with
        | VObj off =>
            ∃ o, i_props i !! "style" = Some (VObj o) ∧
              o !! "position" = Some (VStr "absolute") ∧
              o !! "width" = Some (VStr "auto") ∧
              ∀ k, k ≠ "position" → k ≠ "width" → o !! k = off !! k
        | VArr items =>
            ∃ o, i_props i !! "style" = Some (VObj o) ∧
              o !! "position" = Some (VStr "absolute") ∧
              o !! "width" = Some (VStr "auto") ∧
              ∀ n : nat, o !! pretty n = items !! n
        | v => truthy v = false → i_props i !! "style" = Some (VObj ∅)
        end
    end.
Proof.
  intros H.
  destruct (renderElement_root _ _ _ _ _ H) as (_ & _ & _ & _ & _ & _ & Hr).
  assert (∃ i, roots s' !! key m = Some i ∧ i_props i = elementProps theme config)
    as (i & Ei & Ep).
  { destruct (prop config "duration"); destruct Hr as [Hr _]; eexists; by split. }
  exists i. split; [done|]. rewrite Ep. unfold elementProps.
  rewrite lookup_insert_ne by done.
  destruct (config !! "style") as [v|] eqn:E.
  - by apply lookup_union_Some_l.
  - rewrite lookup_union_r by done. rewrite lookup_insert_ne by done.
    rewrite lookup_singleton_eq.
    destruct (prop config "offset") as [| |bo|z|str|h|e|nd|items|off] eqn:Eo;
      try (by intros ->).
    + eexists. split; [done|]. split; [|split].
      * rewrite lookup_insert_ne by done. by rewrite lookup_insert_eq.
      * by rewrite lookup_insert_eq.
      * intros n.
        rewrite !lookup_insert_ne
          by (apply not_eq_sym, pretty_nat_letter; intros d;
              unfold pretty_N_char; by repeat case_match).
        apply spread_array.
    + eexists. split; [done|]. split; [|split].
      * rewrite lookup_insert_ne by done. by rewrite lookup_insert_eq.
      * by rewrite lookup_insert_eq.
      * intros k Hp Hw. by rewrite !lookup_insert_ne.
Qed.

Lemma style_of_instance_witness :
  ∃ i, roots (after [Create info
                       (VObj (<["content" := VStr "a"]>
                                {["offset" := VArr [VNum 10; VNum 20]]}))
                       None]) !! 2 = Some i ∧
       ∃ o, i_props i !! "style" = Some (VObj o) ∧ o !! "1" = Some (VNum 20).
Proof.
  destruct (style_of_instance info
              (factoryConfig
                 (VObj (<["content" := VStr "a"]>
                          {["offset" := VArr [VNum 10; VNum 20]]}))
                 None)
              initial {| key := 2 |} true
              (after [Create info
                        (VObj (<["content" := VStr "a"]>
                                 {["offset" := VArr [VNum 10; VNum 20]]}))
                        None]))
    as (i & Ei & Es); [vm_compute; reflexivity|].
  exists i. split; [exact Ei|].
  assert (factoryConfig
            (VObj (<["content" := VStr "a"]> {["offset" := VArr [VNum 10; VNum 20]]}))
            None !! "style" = None) as Hs by (vm_compute; reflexivity).
  assert (prop (factoryConfig
                  (VObj (<["content" := VStr "a"]>
                           {["offset" := VArr [VNum 10; VNum 20]]}))
                  None) "offset" = VArr [VNum 10; VNum 20]) as Ho
    by (vm_compute; reflexivity).
  rewrite Hs, Ho in Es. destruct Es as (o & Hst & _ & _ & Hn).
  exists o. split; [exact Hst|]. exact (Hn 1%nat).
Defined.

(** ** X14: the close button *)

(** X14. Whatever [injectValue] computes, [MessageClose] draws nothing
    exactly when [closeBtn] is falsy or missing, which is exactly when the
    message does not carry the class [is-closable]; [closeBtn = true] gives
    the close icon without asking [injectValue]; and a text button shows
    [closeBtn] itself as its children and carries [onClickCloseBtn]. *)
Theorem close_button_iff_closable (injectValue : value → value → value)
    (prefix classPrefix : string) (props : gmap string value) :
  (MessageClose injectValue prefix classPrefix props = NoButton ↔
     isClosable props = false) ∧
  (prop props "closeBtn" = VBool true →
     MessageClose injectValue prefix classPrefix props
       = CloseIconNode (prefix ++ "-close")) ∧
  (∀ c h ch, MessageClose injectValue prefix classPrefix props = SpanNode c h ch →
     ch = prop props "closeBtn" ∧ h = prop props "onClickCloseBtn").
Proof.
  unfold MessageClose, isClosable.
  assert (truthy (defaulted (prop props "closeBtn") (VBool false))
          = truthy (prop props "closeBtn")) as -> by (by destruct (prop props "closeBtn")).
  split; [|split].
  - destruct (truthy (prop props "closeBtn")) eqn:Et; simpl; [|done].
    split; [|done].
    destruct (prop props "closeBtn") as [| |[|]| | | | | | |]; try done;
      repeat match goal with
             | |- context [if ?b then _ else _] => destruct b
             end; done.
  - intros ->. done.
  - intros c h ch.
    destruct (truthy (prop props "closeBtn")); simpl; [|done].
    destruct (prop props "closeBtn") as [| |[|]| | | | | | |]; try done;
      repeat match goal with
             | |- context [if ?b then _ else _] => destruct b
             end; try done; by intros [= <- <- <-].
Qed.

Lemma close_button_iff_closable_witness :
  MessageClose (λ v _, v) "t-message" "t" {["closeBtn" := VStr "dismiss"]}
  = SpanNode "t-message-close" VUndef (VStr "dismiss").
Proof.
  destruct (close_button_iff_closable (λ v _, v) "t-message" "t"
              {["closeBtn" := VStr "dismiss"]}) as (_ & _ & H).
  destruct (MessageClose (λ v _, v) "t-message" "t" {["closeBtn" := VStr "dismiss"]})
    as [|c|c h ch|b c] eqn:E; try (vm_compute in E; discriminate E).
  destruct (H c h ch eq_refl) as [-> ->]. vm_compute in E. injection E as <-.
  reflexivity.
Defined.

(** ** X15: the container a first call creates *)

Lemma factoryConfig_zIndex (content : value) (d : option Z) :
  truthy (prop (factoryConfig content d) "zIndex") = true.
Proof.
  unfold factoryConfig, prop at 1. rewrite lookup_insert_eq. simpl.
  match goal with
  | |- truthy (if truthy ?v then _ else _) = true => by destruct (truthy v) eqn:E
  end.
Qed.

(** X15. On a page without container, a successful factory call creates
    one as a child of the document body, holding just the new message. Its
    z-index is the one of the call, never a falsy one: 6000 stands in for a
    missing or falsy z-index. Its offsets are those of the placement of the
    call, of top when none is given, and its top offset is the global 32
    exactly for the placements top, top-left and top-right. *)
Theorem first_call_creates_container (theme : Theme) (content : value)
    (d : option Z) (s : world) (m : MessageInstance) (s' : world) :
  page s = [] →
  Message_factory theme content d s = Some (m, s') →
  ∃ w, page s' = [w] ∧ w_parent w = DocumentBody ∧ w_kids w = [key m] ∧
    w_zIndex w = prop (factoryConfig content d) "zIndex" ∧
    truthy (w_zIndex w) = true ∧
    (truthy (get content "zIndex") = false ∨ isConfig content = false →
       w_zIndex w = VNum globalConfig.zIndex) ∧
    w_offsets w =
      PlacementOffset
        (defaulted (prop (factoryConfig content d) "placement") (VStr Top)) ∧
    (w_top w = Some globalConfig.top ↔
       w_offsets w = Some p_top ∨ w_offsets w = Some p_top_left ∨
       w_offsets w = Some p_top_right) ∧
    (w_top w = None ∨ w_top w = Some globalConfig.top).
Proof.
  intros Hp H. apply Message_factory_mounted in H as [rb H].
  assert (length (page s) ≤ 1)%nat as Hl by (rewrite Hp; simpl; lia).
  destruct (renderElement_eq _ _ _ _ _ H) as (c & s0 & Ec & _ & _).
  assert (createContainer (factoryConfig content d) s = Some (c, s0)) as Ec' by done.
  unfold createContainer in Ec.
  destruct (isValidElement _); [done|]. simpl in Ec. rewrite Hp in Ec. simpl in Ec.
  destruct (PlacementOffset _) as [o|] eqn:Eo; [simpl in Ec|done].
  injection Ec as <- <-.
  destruct (renderElement_eq _ _ _ _ _ H) as (c1 & s1 & Ec1 & Hm & Hs').
  rewrite Ec' in Ec1. injection Ec1 as <- <-.
  assert (page s' =
            [add_kid (key m)
               {| w_id := nextElem s; w_parent := DocumentBody;
                  w_zIndex := prop (factoryConfig content d) "zIndex";
                  w_offsets := Some o;
                  w_top := if includes (placement_name o) Top
                           then Some globalConfig.top else None;
                  w_kids := [] |}]) as Hpage.
  { rewrite Hs'. unfold appendChild. simpl page at 1.
    match goal with
    | |- _ <$> page ?x = _ =>
        assert (page x = [{| w_id := nextElem s; w_parent := DocumentBody;
                            w_zIndex := prop (factoryConfig content d) "zIndex";
                            w_offsets := Some o;
                            w_top := if includes (placement_name o) Top
                                     then Some globalConfig.top else None;
                            w_kids := [] |}]) as ->
    end.
    { destruct (String.eqb _ _); [|done].
      by destruct (startDuration_frame (key m)
                     (mountAt (key m)
                        (elementProps theme (factoryConfig content d))
                        (set_page
                           [{| w_id := nextElem s; w_parent := DocumentBody;
                               w_zIndex := prop (factoryConfig content d) "zIndex";
                               w_offsets := Some o;
                               w_top := if includes (placement_name o) Top
                                        then Some globalConfig.top else None;
                               w_kids := [] |}]
                           (set_nextElem (S (nextElem s)) s))))
        as (_ & _ & -> & _). }
    simpl. by rewrite Nat.eqb_refl. }
  eexists. split; [exact Hpage|]. simpl.
  split; [done|]. split; [done|]. split; [done|].
  split; [apply factoryConfig_zIndex|]. split; [|split; [done|]].
  - intros Hz. unfold factoryConfig, prop at 1. rewrite lookup_insert_eq. simpl.
    assert (truthy (prop (if isConfig content
                          then fields content ∪ {["duration" :=
                                 VNum (default globalConfig.duration d)]}
                          else <["content" := content]> {["duration" :=
                                 VNum (default globalConfig.duration d)]}) "zIndex")
            = false) as ->; [|done].
    destruct (isConfig content) eqn:Ec.
    + destruct Hz as [Hz|?]; [|done]. unfold get in Hz. unfold prop in *.
      destruct (fields content !! "zIndex") as [v|] eqn:Ev.
      * by rewrite (lookup_union_Some_l _ _ _ _ Ev).
      * rewrite lookup_union_r by done. by rewrite lookup_singleton_ne.
    + unfold prop. rewrite lookup_insert_ne by done. by rewrite lookup_singleton_ne.
  - destruct o; vm_compute; split; try tauto; try (split; [|by auto]);
      intuition congruence.
Qed.

Lemma first_call_creates_container_witness :
  ∃ w, page (after [Create warning
                      (VObj (<["content" := VStr "a"]>
                               (<["zIndex" := VNum 0]>
                                  {["placement" := VStr "bottom-left"]}))) None])
       = [w] ∧ w_zIndex w = VNum 6000 ∧ w_top w = None.
Proof.
  destruct (first_call_creates_container warning
              (VObj (<["content" := VStr "a"]>
                       (<["zIndex" := VNum 0]> {["placement" := VStr "bottom-left"]})))
              None initial {| key := 2 |}
              (after [Create warning
                        (VObj (<["content" := VStr "a"]>
                                 (<["zIndex" := VNum 0]>
                                    {["placement" := VStr "bottom-left"]}))) None]))
    as (w & Hw & _ & _ & _ & _ & Hz & Ho & Ht & Hn);
    [reflexivity|vm_compute; reflexivity|].
  exists w. split; [exact Hw|]. split.
  - apply Hz. left. vm_compute. reflexivity.
  - destruct Hn as [Hn|Hn]; [exact Hn|].
    apply Ht in Hn. rewrite Ho in Hn. vm_compute in Hn.
    destruct Hn as [Hn|[Hn|Hn]]; discriminate Hn.
Defined.

(** ** X16: closing what is already closed *)

Lemma filter_all (P : Z → Prop) `{!∀ x, Decision (P x)} (l : list Z) :
  (∀ x, x ∈ l → P x) → filter P l = l.
Proof.
  induction l as [|x l IH]; [done|]. intros Hall.
  rewrite filter_cons. case_decide as Hx.
  - f_equal. apply IH. intros y Hy. apply Hall. by apply elem_of_cons; right.
  - destruct Hx. apply Hall. apply list_elem_of_here.
Qed.

(** X16. In every reachable state, [Message.close] on a handle whose
    message is already closed, by an earlier [close], by its timer or by
    [closeAll], changes nothing at all: no callback, no timer, no element of
    the page is touched. *)
Theorem close_of_closed_is_noop (s : world) (m : MessageInstance) :
  reachable s → mounted (key m) s = false → Message_close m s = s.
Proof.
  intros Hr Hm. pose proof (InvK_reachable _ Hr) as [_ K2].
  unfold Message_close, close. rewrite unmount_unmounted by done.
  unfold remove. apply world_eq; try done. simpl.
  rewrite <- (list_fmap_id (page s)) at 2.
  apply list_fmap_ext. intros j w Hw.
  assert (w ∈ page s) as Hin by (apply list_elem_of_lookup; by eauto).
  destruct (K2 w Hin) as [Hk _].
  unfold drop_kid. destruct w as [wi wp wz wo wt wk]. simpl in *. f_equal.
  apply filter_all. intros x Hx Hxk. subst x.
  apply Hk in Hx. congruence.
Qed.

Lemma close_of_closed_is_noop_witness :
  Message_close {| key := 2 |}
    (after [Create info (VStr "a") (Some 0); Create info (VStr "b") None; Fire 1])
  = after [Create info (VStr "a") (Some 0); Create info (VStr "b") None; Fire 1].
Proof.
  apply close_of_closed_is_noop.
  - exists plainHost, [Create info (VStr "a") (Some 0); Create info (VStr "b") None; Fire 1].
    vm_compute. reflexivity.
  - vm_compute. reflexivity.
Defined.

(** ** X17: onDurationEnd at most once *)

Lemma durationEndCount_app (k : Z) (tr1 tr2 : list event) :
  durationEndCount k (tr1 ++ tr2)
  = (durationEndCount k tr1 + durationEndCount k tr2)%nat.
Proof. unfold durationEndCount. by rewrite filter_app, length_app. Qed.

Lemma durationEndCount_unmount (k j : Z) (s : world) :
  durationEndCount k (trace (unmountComponentAtNode j s))
  = durationEndCount k (trace s).
Proof.
  rewrite trace_unmount, durationEndCount_app.
  destruct (roots s !! j) as [i|]; [|by rewrite Nat.add_0_r].
  destruct (_ && _); by rewrite Nat.add_0_r.
Qed.

Lemma durationEndBound_close (m : MessageInstance) (k : Z) (s : world) :
  (durationEndBound k s ≤ durationEndBound k (close m s))%nat.
Proof.
  unfold durationEndBound. rewrite roots_close. case_decide; [|done].
  destruct (roots s !! k) as [i|]; simpl; [|done]. destruct (i_mounted i); lia.
Qed.

Lemma InvD_close (m : MessageInstance) (s : world) : InvD s → InvD (close m s).
Proof.
  intros ID k. rewrite trace_close, durationEndCount_unmount.
  etrans; [apply ID|apply durationEndBound_close].
Qed.

Lemma InvD_sweep (l : list MessageInstance) (s : world) : InvD s → InvD (sweep l s).
Proof.
  revert s. induction l as [|m l IH]; intros s I; [done|].
  apply (IH (close m s)). by apply InvD_close.
Qed.

Lemma InvD_frame (s s' : world) :
  trace s' = trace s → (∀ k, durationEndBound k s' = durationEndBound k s) →
  InvD s → InvD s'.
Proof. intros HT HB ID k. rewrite HT, HB. apply ID. Qed.

Lemma InvD_step (s s' : world) (a : action) :
  Inv s → InvD s → step s a = Some s' → InvD s'.
Proof.
  intros I ID. destruct a as [theme content d|m| |k|k|dt|id]; simpl.
  - destruct (Message_factory _ _ _ _) as [[m s1]|] eqn:E; [simpl|done].
    apply Message_factory_mounted in E as [rb E].
    intros [= <-].
    destruct (renderElement_root _ _ _ _ _ E) as (Hm & _ & _ & _ & HT & Hr & _).
    intros k. rewrite HT. destruct (decide (k = key m)) as [->|Hk].
    + pose proof (ID (key m)) as Hb. unfold durationEndBound in Hb.
      assert (roots s !! key m = None) as Hn.
      { apply eq_None_not_Some. rewrite (inv_issued _ I). lia. }
      rewrite Hn in Hb. lia.
    + unfold durationEndBound. rewrite Hr by done. apply ID.
  - case_bool_decide; [|done]. intros [= <-]. by apply InvD_close.
  - intros [= <-]. unfold Message_closeAll.
    apply (InvD_frame (sweep (MessageList s) s)); [done|done|]. by apply InvD_sweep.
  - destruct (mounted k s); [|done]. intros [= <-].
    apply (InvD_frame s); [apply onMouseEnter_frame| |done].
    intros j. unfold durationEndBound.
    by destruct (onMouseEnter_frame k s) as (_ & _ & -> & _).
  - destruct (mounted k s); [|done]. intros [= <-]. unfold onMouseLeave.
    apply (InvD_frame s); [apply startDuration_frame| |done].
    intros j. pose proof (mounted_startDuration k j s) as Hm.
    unfold durationEndBound. unfold mounted in Hm. unfold startDuration in *.
    destruct (roots s !! k) as [i|] eqn:Ei; [simpl in *|done].
    rewrite lookup_insert in *. case_decide; [|done]. subst. by rewrite Ei.
  - destruct (0 <=? dt); [|done]. intros [= <-]. by apply (InvD_frame s).
  - intros H. apply fire_cases in H as (t & Ht & _ & ->).
    destruct (timerCallback_cases t (set_timers (delete id (timers s)) s))
      as [[_ ->]|[_ ->]]; [|by apply (InvD_frame s)].
    destruct (inv_timers _ I _ _ Ht) as (i & Ei & Em & _).
    intros k. rewrite trace_close, durationEndCount_unmount. simpl.
    rewrite durationEndCount_app.
    unfold durationEndBound. rewrite roots_close. simpl.
    pose proof (ID k) as Hb. unfold durationEndBound in Hb.
    unfold durationEndCount at 2. rewrite filter_cons. simpl.
    case_decide as Hk.
    + apply bool_decide_eq_true in Hk. subst k. rewrite Ei in *.
      rewrite Em in Hb. case_decide; [|done]. simpl. lia.
    + case_decide as Hd; [|simpl; lia].
      destruct Hk. by apply bool_decide_eq_true.
Qed.

Lemma InvD_reachable (s : world) : reachable s → InvD s.
Proof.
  intros (h & acts & H).
  assert (Inv (boot h) ∧ InvD (boot h)) as HI.
  { split; [apply Inv_boot|]. intros k. done. }
  revert H HI. generalize (boot h). induction acts as [|a acts IH]; intros s0; simpl.
  - intros [= <-] [_ ?]. done.
  - destruct (step s0 a) as [s1|] eqn:E; [simpl|done].
    intros Hrun [I0 ID0]. apply (IH s1 Hrun).
    split; [by eapply Inv_step|by eapply InvD_step].
Qed.

(** X17. In every reachable state [onDurationEnd] has been called at most
    once for each message, and not at all for a message that is still
    mounted: it is called from the timer only, and the timer that calls it
    closes the message, after which the message has no timer any more. *)
Theorem onDurationEnd_at_most_once (s : world) (k : Z) :
  reachable s →
  (durationEndCount k (trace s) ≤ 1)%nat ∧
  (mounted k s = true → durationEndCount k (trace s) = 0%nat).
Proof.
  intros Hr. pose proof (InvD_reachable _ Hr k) as Hb.
  unfold durationEndBound, mounted in *.
  destruct (roots s !! k) as [i|]; [|split; [lia|done]].
  destruct (i_mounted i); split; try lia; done.
Qed.

Lemma onDurationEnd_at_most_once_witness :
  (durationEndCount 2%Z
     (trace (after [Create info (VStr "a") (Some 5%Z); MouseEnter 2%Z;
                    MouseLeave 2%Z; Elapse 5%Z; Fire 2%Z;
                    Create info (VStr "b") (Some 5%Z)])) ≤ 1)%nat.
Proof.
  refine (proj1 (onDurationEnd_at_most_once _ 2 _)).
  exists plainHost, [Create info (VStr "a") (Some 5); MouseEnter 2; MouseLeave 2;
          Elapse 5; Fire 2; Create info (VStr "b") (Some 5)].
  vm_compute. reflexivity.
Defined.
